(** * Volatility 1.4: address-space voting and Windows overlay helpers

    A shallow embedding of
    - [volatility/utils.py]: [load_as] and [AddrSpaceError];
    - [volatility/plugins/overlays/windows/windows.py]: the list, VAD-tree and
      handle-table walks, the [_MMVAD] tag dispatch, optional object headers,
      fast references, the IA32 validator, Windows time stamps, VAD regions,
      PE sections, registry key names and file access strings. *)

From Stdlib Require Import ZArith String List Bool Lia.
Import ListNotations.


(* ------------------------------------------------------------------ *)
(** ** utils.py *)

Set Warnings "-register-all".

Module Utils.

(** An address-space layer as produced by [cls(base_as, **kwargs)]: the class
    name it was built from and the layer it wraps ([None] = raw file). *)
Inductive Layer : Type :=
| mkLayer (name : string) (base : option Layer).

(** What the constructor of an address-space class does on a given base:
    it returns an instance, raises [AssertionError] (a rejection, caught by
    [load_as]) or raises any other exception (propagated). *)
Inductive Outcome : Type :=
| Accept
| Reject (reason : string)
| Fault (exn : string).

Section LoadAs.

(** The configuration bag [**kwargs], passed unchanged to every constructor. *)
Variable Config : Type.

(** One entry of [registry.AS_CLASSES.classes]: [cls.__name__] and the
    self-test its constructor runs against the base and the configuration. *)
Record ASClass : Type := {
  cls_name : string;
  cls_test : option Layer -> Config -> Outcome
}.

(** [AddrSpaceError]: [self.reasons] is the list of (driver, reason) pairs. *)
Record AddrSpaceError : Type := { reasons : list (string * string) }.

(** How a call to [load_as] ends. *)
Inductive LoadResult : Type :=
| Loaded (l : Layer)
| Raised (e : AddrSpaceError)
| Crashed (exn : string).

(** How one voting round (the inner [for cls in ...] loop) ends. *)
Inductive RoundResult : Type :=
| Found (l : Layer) (errs : list (string * string))
| NotFound (errs : list (string * string))
| RoundFault (exn : string).

Variable cfg : Config.

(** The [for] loop of one round, with [error.reasons] threaded through. *)
Fixpoint round (cat : list ASClass) (base_as : option Layer)
    (errs : list (string * string)) : RoundResult :=
  match cat with
  | [] => NotFound errs
  | cls :: rest =>
      match cls_test cls base_as cfg with
      | Accept => Found (mkLayer (cls_name cls) base_as) errs
      | Reject e => round rest base_as (errs ++ [(cls_name cls, e)])
      | Fault x => RoundFault x
      end
  end.

(** The [while 1] loop; [fuel] bounds the number of rounds, [None] means the
    bound was reached before the loop ended. *)
Fixpoint vote (cat : list ASClass) (fuel : nat) (base_as : option Layer)
    (errs : list (string * string)) : option LoadResult :=
  match fuel with
  | O => None
  | S f =>
      match round cat base_as errs with
      | RoundFault x => Some (Crashed x)
      | Found l errs' => vote cat f (Some l) errs'
      | NotFound errs' =>
          Some (match base_as with
                | None => Raised {| reasons := errs' |}
                | Some l => Loaded l
                end)
      end
  end.

Definition load_as (cat : list ASClass) (fuel : nat) : option LoadResult :=
  vote cat fuel None [].

(** A class rejected the base [b] with the reason recorded in the pair [p]. *)
Definition rejected_by (b : option Layer) (cls : ASClass) (p : string * string) : Prop :=
  fst p = cls_name cls /\ cls_test cls b cfg = Reject (snd p).

(** The voting algorithm as the spec (section 4.1) describes it, for comparison
    with [load_as]: [VotingChain cat b l] holds when the rounds started from
    base [b] end with the layer [l].  In each round the first class of the
    whole catalogue that accepts the current base wins (all classes before it
    reject) and the next round starts from the top; a round where every class
    rejects ends the algorithm with the current (non-empty) layer. *)
Inductive VotingChain (cat : list ASClass) : option Layer -> Layer -> Prop :=
| vc_stop : forall l rs,
    Forall2 (rejected_by (Some l)) cat rs ->
    VotingChain cat (Some l) l
| vc_step : forall b pre cls post rs l,
    cat = pre ++ cls :: post ->
    Forall2 (rejected_by b) pre rs ->
    cls_test cls b cfg = Accept ->
    VotingChain cat (Some (mkLayer (cls_name cls) b)) l ->
    VotingChain cat b l.

End LoadAs.

Arguments cls_name {Config}.
Arguments cls_test {Config}.
Arguments Build_ASClass {Config}.
Arguments round {Config}.
Arguments vote {Config}.
Arguments load_as {Config}.
Arguments rejected_by {Config}.
Arguments VotingChain {Config}.

End Utils.

(* ------------------------------------------------------------------ *)
(** ** plugins/overlays/windows/windows.py *)

Module Windows.

Local Open Scope Z_scope.

(** *** [_LIST_ENTRY.list_of_type] *)
Section ListEntry.

(** The image as seen through [_LIST_ENTRY] objects: the [Flink] and [Blink]
    pointers stored in the list entry at an address, and [is_valid()] of the
    object at an address. *)
Variable Flink Blink : Z -> Z.
Variable is_valid : Z -> bool.
(** [profile.get_obj_offset(type, member)]: offset of the list entry inside
    the element type. *)
Variable member_offset : Z.

Definition follow (forward : bool) (a : Z) : Z :=
  if forward then Flink a else Blink a.

(** The [while 1] loop with the [seen] set; it returns the [obj_offset] of
    each yielded [item].  [fuel] bounds the iterations ([None]: bound hit). *)
Fixpoint list_walk (forward : bool) (fuel : nat) (seen : list Z) (lst : Z)
    : option (list Z) :=
  match fuel with
  | O => None
  | S f =>
      let item := lst - member_offset in
      let lst' := follow forward (item + member_offset) in
      if negb (is_valid lst') || existsb (Z.eqb lst') seen then Some []
      else option_map (cons item) (list_walk forward f (lst' :: seen) lst')
  end.

Definition list_of_type (self : Z) (forward : bool) (fuel : nat) : option (list Z) :=
  if negb (is_valid self) then Some []
  else
    let lst := follow forward self in
    list_walk forward fuel [lst] lst.

End ListEntry.

(** *** [_MMVAD.__new__]: tag dispatch *)

Inductive VadType : Type := MMVAD_SHORT | MMVAD_LONG.

Definition VadType_eqb (a b : VadType) : bool :=
  match a, b with
  | MMVAD_SHORT, MMVAD_SHORT | MMVAD_LONG, MMVAD_LONG => true
  | _, _ => false
  end.

(** What [_MMVAD(...)] evaluates to: an object of a concrete VAD class at an
    offset, or a [NoneObject] carrying its reason. *)
Inductive MMVAD : Type :=
| VadNode (ty : VadType) (offset : Z)
| VadNone (reason : string).

(** [_MMVAD.tag_map], in the order of the source. *)
Definition tag_map : list (string * VadType) :=
  [("Vadl", MMVAD_LONG); ("VadS", MMVAD_SHORT); ("Vad ", MMVAD_LONG);
   ("VadF", MMVAD_SHORT); ("Vadm", MMVAD_LONG)]%string.

(** [dict.get(key, None)] on a dictionary given as an association list. *)
Fixpoint dict_get {V} (d : list (string * V)) (key : string) : option V :=
  match d with
  | [] => None
  | (k, v) :: d' => if String.eqb k key then Some v else dict_get d' key
  end.

(** The [Tag] member of [_MMVAD_SHORT] and [_MMVAD_LONG] in [windows_overlay]:
    [[-4, ['String', dict(length = 4)]]]. *)
Definition Tag_offset : Z := -4.
Definition Tag_length : Z := 4.

Section MMVADNew.

(** [str()] of a [String] object of the given length read at an address. *)
Variable read_string : Z -> Z -> string.

Definition mmvad_new (vm : bool) (offset : Z) : MMVAD :=
  if offset <? 4 then
    VadNone "MMVAD probably instantiated from a NULL pointer, there is no tag to read"%string
  else if negb vm then
    VadNone "Could not find address space for _MMVAD object"%string
  else
    let result := VadNode MMVAD_LONG offset in
    let tag := read_string (offset + Tag_offset) Tag_length in
    match dict_get tag_map tag with
    | None => VadNone ("Tag " ++ tag ++ " not known")%string
    | Some real_type =>
        if VadType_eqb MMVAD_LONG real_type then result
        else VadNode real_type offset
    end.

(** *** [_MMVAD_SHORT.traverse] *)

(** The [LeftChild] and [RightChild] pointer values of the node at an
    offset; following one builds an [_MMVAD] through [mmvad_new]. *)
Variable LeftChild RightChild : Z -> Z.
Variable vm : bool.

Definition child (ptr : Z) : option Z :=
  match mmvad_new vm ptr with
  | VadNode _ o => Some o
  | VadNone _ => None
  end.

(** [traverse(visited)] run to completion: the offsets it yields and the
    [visited] set afterwards.  [top] is set for the outermost call, whose own
    yield is not seen by any enclosing loop; in a nested call the enclosing
    [for c in ...: visited.add(c.obj_offset)] adds the node as soon as it
    yields itself, before it goes on to its children. *)
Fixpoint traverse (fuel : nat) (top : bool) (self : Z) (visited : list Z)
    : option (list Z * list Z) :=
  match fuel with
  | O => None
  | S f =>
      if existsb (Z.eqb self) visited then Some ([], visited)
      else
        let v1 := if top then visited else self :: visited in
        let sub (c : option Z) (v : list Z) :=
          match c with
          | Some o => traverse f false o v
          | None => Some ([], v)
          end in
        match sub (child (LeftChild self)) v1 with
        | None => None
        | Some (ys_l, v2) =>
            match sub (child (RightChild self)) v2 with
            | None => None
            | Some (ys_r, v3) => Some (self :: ys_l ++ ys_r, v3)
            end
        end
  end.

(** [for vad in root.traverse()]: the outermost call starts with an empty set. *)
Definition traverse_root (fuel : nat) (root : Z) : option (list Z) :=
  option_map fst (traverse fuel true root []).

End MMVADNew.

(** *** [_HANDLE_TABLE._make_handle_array] and [_HANDLE_TABLE.handles] *)
Section HandleTable.

(** [is_valid()] / truth value of the object at an address, the value of an
    ["address"] entry, and [profile.get_obj_size] of ["address"] and
    ["_HANDLE_TABLE_ENTRY"]. *)
Variable is_valid : Z -> bool.
Variable read_address : Z -> Z.
Variable address_size handle_entry_size : Z.
(** Whether the [_OBJECT_HEADER] that [get_item] builds for the entry at an
    address is yielded ([item != None] and [TypeIndex != 0], or
    [Type.Name]). *)
Variable item_ok : Z -> bool.

(** [range(0, count)] as the positions the [Array] iteration visits. *)
Definition positions (count : Z) : list Z := map Z.of_nat (seq 0 (Z.to_nat count)).

Definition leaf_count : Z := 4096 / handle_entry_size.
Definition upper_count : Z := 4096 / address_size.

(** The [for entry in table] loop at level 0: (entry offset, handle value)
    for every yielded item. *)
Fixpoint leaf_entries (offset depth : Z) (pos : list Z) : list (Z * Z) :=
  match pos with
  | [] => []
  | p :: ps =>
      let entry := offset + p * handle_entry_size in
      if negb (is_valid entry) then []
      else
        let handle_multiplier := 4 in
        let handle_level_base := depth * leaf_count * handle_multiplier in
        let handle_value := (entry - offset) / (handle_entry_size / handle_multiplier)
                            + handle_level_base in
        (if item_ok entry then [(entry, handle_value)] else [])
        ++ leaf_entries offset depth ps
  end.

(** The [for entry in table] loop at a level above 0; [rec] is the recursive
    call one level down, and [depth += 1] follows each sub-table. *)
Fixpoint upper_entries (rec : Z -> Z -> list (Z * Z)) (offset depth : Z) (pos : list Z)
    : list (Z * Z) :=
  match pos with
  | [] => []
  | p :: ps =>
      let entry := offset + p * address_size in
      if negb (is_valid entry) then []
      else rec (read_address entry) depth ++ upper_entries rec offset (depth + 1) ps
  end.

Fixpoint make_handle_array (level : nat) (offset depth : Z) : list (Z * Z) :=
  if negb (is_valid offset) then []
  else
    match level with
    | O => leaf_entries offset depth (positions leaf_count)
    | S l => upper_entries (make_handle_array l) offset depth (positions upper_count)
    end.

Definition LEVEL_MASK : Z := 7.

Definition handles (TableCode_v : Z) : list (Z * Z) :=
  let TableCode := Z.land TableCode_v (Z.lnot LEVEL_MASK) in
  let table_levels := Z.land TableCode_v LEVEL_MASK in
  make_handle_array (Z.to_nat table_levels) TableCode 0.

End HandleTable.

(** *** [_OBJECT_HEADER.find_optional_headers] *)

(** The value [newattr] stores under an optional header's name. *)
Inductive OptHeader : Type :=
| HeaderObj (objtype : string) (offset : Z)
| HeaderNone (reason : string).

Definition optional_headers : list (string * string) :=
  [("NameInfo", "_OBJECT_HEADER_NAME_INFO");
   ("HandleInfo", "_OBJECT_HEADER_HANDLE_INFO");
   ("QuotaInfo", "_OBJECT_HEADER_QUOTA_INFO")]%string.

Section OptionalHeaders.

(** [profile.has_type(objtype)] and [self.m(name).v()] of the header. *)
Variable has_type : string -> bool.
Variable member_v : string -> Z.

(** The attributes [find_optional_headers] adds, as (name, value) pairs in
    the order of the [for] loop. *)
Fixpoint find_headers (offset : Z) (hs : list (string * string))
    : list (string * OptHeader) :=
  match hs with
  | [] => []
  | (name, objtype) :: rest =>
      if has_type objtype then
        let header_offset := member_v (name ++ "Offset")%string in
        let o := if negb (Z.eqb header_offset 0)
                 then HeaderObj objtype (offset - header_offset)
                 else HeaderNone "Header not set"%string in
        (name, o) :: find_headers offset rest
      else find_headers offset rest
  end.

Definition find_optional_headers (obj_offset : Z) : list (string * OptHeader) :=
  find_headers obj_offset optional_headers.

End OptionalHeaders.

(** *** [_EX_FAST_REF.dereference_as] *)

Definition MAX_FAST_REF : Z := 7.

Section FastRef.

(** Objects of the model, with their truth value ([parent or self]). *)
Variable Obj : Type.
Variable truthy : Obj -> bool.

(** What [obj.Object(theType, offset, vm, parent = ..., **kwargs)] is asked
    to build. *)
Record ObjectRequest : Type := {
  req_type : string;
  req_offset : Z;
  req_parent : Obj;
  req_kwargs : list (string * Z)
}.

(** [self] is the [_EX_FAST_REF], [Object_v] the value [self.Object.v()]. *)
Definition dereference_as (self : Obj) (Object_v : Z) (theType : string)
    (parent : option Obj) (kwargs : list (string * Z)) : ObjectRequest :=
  {| req_type := theType;
     req_offset := Z.land Object_v (Z.lnot MAX_FAST_REF);
     req_parent := match parent with
                   | Some p => if truthy p then p else self
                   | None => self
                   end;
     req_kwargs := kwargs |}.

End FastRef.

(** *** [VolatilityIA32ValidAS.generate_suggestions] *)

(** A call that may raise [addrspace.ASAssertionError]. *)
Inductive Try (A : Type) : Type :=
| Ok (a : A)
| ASAssertionError.
Arguments Ok {A}.
Arguments ASAssertionError {A}.

Definition opt_eqb (a b : option Z) : bool :=
  match a, b with
  | Some x, Some y => Z.eqb x y
  | None, None => true
  | _, _ => false
  end.

Section IA32.

(** The candidate paged address space: [pae], [dtb], [get_pdpte] and [vtop]
    ([vtop] gives [None] for an unmapped address). *)
Variable pae : bool.
Variable dtb : Z.
Variable get_pdpte : Z -> Try Z.
Variable vtop : Z -> Try (option Z).

Definition pde_base : Z := if pae then 3227516928 (* 0xc0600000 *)
                           else 3224371200 (* 0xc0300000 *).

Definition pd_value : Try Z :=
  if pae then
    match get_pdpte 0 with
    | Ok v => Ok (Z.land v 4503599627366400 (* 0xffffffffff000 *))
    | ASAssertionError => ASAssertionError
    end
  else Ok dtb.

(** The [try] block: [true] when it yields [True]; an [ASAssertionError]
    raised inside it is caught and, like a mismatch, falls through. *)
Definition self_map_check : bool :=
  match pd_value with
  | ASAssertionError => false
  | Ok pd =>
      match vtop pde_base with
      | ASAssertionError => false
      | Ok r => opt_eqb r (Some pd)
      end
  end.

Definition KUSER_SHARED_DATA_kernel : Z := 4292804608. (* 0xffdf0000 *)
Definition KUSER_SHARED_DATA_user : Z := 2147352576.   (* 0x7ffe0000 *)

(** The values the generator yields before it stops; an [ASAssertionError]
    outside the [try] block propagates. *)
Definition generate_suggestions : Try (list bool) :=
  if self_map_check then Ok [true]
  else
    match vtop KUSER_SHARED_DATA_kernel with
    | ASAssertionError => ASAssertionError
    | Ok a =>
        match vtop KUSER_SHARED_DATA_user with
        | ASAssertionError => ASAssertionError
        | Ok b =>
            if opt_eqb a b then
              match vtop KUSER_SHARED_DATA_kernel with
              | ASAssertionError => ASAssertionError
              | Ok a' => if negb (opt_eqb a' None) then Ok [true] else Ok [false]
              end
            else Ok [false]
        end
    end.

End IA32.

(** *** [WinTimeStamp] *)

Definition windows_to_unix_time (windows_time : Z) : Z :=
  let unix_time := if Z.eqb windows_time 0 then 0
                   else windows_time / 10000000 - 11644473600 in
  if unix_time <? 0 then 0 else unix_time.

(** [NativeType.v] with format string ["q"]: the little-endian 64-bit word
    read as a signed integer. *)
Definition as_windows_timestamp (word : Z) : Z :=
  if word <? 2 ^ 63 then word else word - 2 ^ 64.

Definition WinTimeStamp_v (word : Z) : Z :=
  windows_to_unix_time (as_windows_timestamp word).




(** [WinTimeStamp.__nonzero__]: [self.v() != 0]. *)
Definition WinTimeStamp_nonzero (word : Z) : bool :=
  negb (Z.eqb (WinTimeStamp_v word) 0).

(** *** [ThreadCreateTimeStamp]: [as_windows_timestamp] shifts the signed
    word right by 3; [v] and [__nonzero__] are inherited. *)
Definition ThreadCreateTimeStamp_as_windows_timestamp (word : Z) : Z :=
  Z.shiftr (as_windows_timestamp word) 3.

Definition ThreadCreateTimeStamp_v (word : Z) : Z :=
  windows_to_unix_time (ThreadCreateTimeStamp_as_windows_timestamp word).

Definition ThreadCreateTimeStamp_nonzero (word : Z) : bool :=
  negb (Z.eqb (ThreadCreateTimeStamp_v word) 0).

(** *** [_EPROCESS.get_vads] *)

(** [procspace] is the truth value of [get_process_address_space()] (the
    process address space is then the [vm] of every VAD object), [VadRoot]
    the value of the [VadRoot] member; the result lists the offsets of the
    yielded VADs. *)
Definition get_vads (read_string : Z -> Z -> string) (LeftChild RightChild : Z -> Z)
    (procspace : bool) (VadRoot : Z) (fuel : nat) : option (list Z) :=
  if negb procspace then Some []
  else
    match mmvad_new read_string procspace VadRoot with
    | VadNone _ => Some []
    | VadNode _ o => traverse_root read_string LeftChild RightChild procspace fuel o
    end.

(** *** [_MMVAD_SHORT.get_start], [get_end] and [get_data] *)

Definition get_start (StartingVpn : Z) : Z := Z.shiftl StartingVpn 12.

Definition get_end (EndingVpn : Z) : Z := Z.shiftl (EndingVpn + 1) 12 - 1.

(** [zread] is [self.obj_vm.zread(start, length)] of the process space. *)
Definition get_data (zread : Z -> Z -> string) (StartingVpn EndingVpn : Z) : string :=
  let start := get_start StartingVpn in
  let end_ := get_end EndingVpn in
  if (start >? 4294967295) || (end_ >? Z.shiftl 4294967295 12) then EmptyString
  else zread start (end_ - start + 1).

(** *** [_FILE_OBJECT.access_string] *)

(** [(field > 0 and letter) or '-']. *)
Definition access_char (field : Z) (letter : string) : string :=
  if 0 <? field then letter else "-"%string.

Definition access_string (ReadAccess WriteAccess DeleteAccess SharedRead SharedWrite
    SharedDelete : Z) : string :=
  (access_char ReadAccess "R" ++ access_char WriteAccess "W" ++
   access_char DeleteAccess "D" ++ access_char SharedRead "r" ++
   access_char SharedWrite "w" ++ access_char SharedDelete "d")%string.

(** *** PE sections *)

(** [format(n, "0<width>X")] / [format(n, "0<width>x")] for [n >= 0] (the
    formatted fields are unsigned): hexadecimal digits, zero-padded. *)
Definition hex_digit (upper : bool) (d : Z) : Ascii.ascii :=
  if d <? 10 then Ascii.ascii_of_nat (48 + Z.to_nat d)
  else Ascii.ascii_of_nat ((if upper then 55 else 87) + Z.to_nat d).

Fixpoint hex_digits_rev (fuel : nat) (upper : bool) (n : Z) : list Ascii.ascii :=
  match fuel with
  | O => []
  | S f => hex_digit upper (n mod 16)
           :: (if n <? 16 then [] else hex_digits_rev f upper (n / 16))
  end.

Definition format_hex (upper : bool) (width : nat) (n : Z) : string :=
  let ds := rev (hex_digits_rev 64 upper n) in
  string_of_list_ascii (repeat (Ascii.ascii_of_nat 48) (width - List.length ds) ++ ds).

(** [_IMAGE_SECTION_HEADER.sanity_check_section]: [Some msg] when it raises. *)
Definition sanity_check_section (image_size VirtualAddress VirtualSize SizeOfRawData : Z)
    : option string :=
  if VirtualAddress >? image_size then
    Some ("VirtualAddress " ++ format_hex false 8 VirtualAddress
          ++ " is past the end of image.")%string
  else if VirtualSize >? image_size then
    Some ("VirtualSize " ++ format_hex false 8 VirtualSize
          ++ " is larger than image size.")%string
  else if SizeOfRawData >? image_size then
    Some ("SizeOfRawData " ++ format_hex false 8 SizeOfRawData
          ++ " is larger than image size.")%string
  else None.

Section Sections.

(** [VirtualAddress], [Misc.VirtualSize] and [SizeOfRawData] of the section
    header at an offset, and [OptionalHeader.SizeOfImage] of the parent
    [_IMAGE_NT_HEADERS]. *)
Variable VirtualAddress VirtualSize SizeOfRawData : Z -> Z.
Variable SizeOfImage : Z.

(** The [for] loop of [get_sections]: the offsets of the yielded sections,
    and the [ValueError] that ended the generator, if any. *)
Fixpoint sections_from (unsafe : bool) (start_addr sect_size : Z) (is : list Z)
    : list Z * option string :=
  match is with
  | [] => ([], None)
  | i :: is' =>
      let s_addr := start_addr + i * sect_size in
      let check := if unsafe then None
                   else sanity_check_section SizeOfImage (VirtualAddress s_addr)
                          (VirtualSize s_addr) (SizeOfRawData s_addr) in
      match check with
      | Some msg => ([], Some msg)
      | None => let (ys, err) := sections_from unsafe start_addr sect_size is' in
                (s_addr :: ys, err)
      end
  end.

(** [_IMAGE_NT_HEADERS.get_sections(unsafe)]: [sect_size] is
    [get_obj_size("_IMAGE_SECTION_HEADER")]. *)
Definition get_sections (unsafe : bool) (SizeOfOptionalHeader OptionalHeader_offset
    NumberOfSections sect_size : Z) : list Z * option string :=
  sections_from unsafe (SizeOfOptionalHeader + OptionalHeader_offset) sect_size
    (positions NumberOfSections).

End Sections.

(** *** [_CM_KEY_BODY.full_key_name] *)
Section KeyBody.

(** The [ParentKcb] pointer of the key control block at an address, its
    truth value, and [str(kcb.NameBlock.Name)] ([None] when the name is
    [None]). *)
Variable ParentKcb : Z -> Z.
Variable ParentKcb_ok : Z -> bool.
Variable Name : Z -> option string.

(** The [while kcb.ParentKcb] loop; [None]: the fuel ran out. *)
Fixpoint kcb_walk (fuel : nat) (kcb : Z) (output : list string) : option (list string) :=
  match fuel with
  | O => None
  | S f =>
      if negb (ParentKcb_ok kcb) then Some output
      else match Name kcb with
           | None => Some output
           | Some n => kcb_walk f (ParentKcb kcb) (output ++ [n])
           end
  end.

Definition full_key_name (fuel : nat) (KeyControlBlock : Z) : option string :=
  option_map (fun output => String.concat "\" (rev output))
    (kcb_walk fuel KeyControlBlock []).

End KeyBody.

End Windows.

(* ------------------------------------------------------------------ *)
(** ** Proofs about utils.py *)

Module UtilsProofs.
Import Utils.

Section Round.
Variable Config : Type.
Variable cfg : Config.

Lemma round_found (cat : list (ASClass Config)) b errs l errs' :
  round cfg cat b errs = Found l errs' ->
  exists pre cls post rs,
    cat = pre ++ cls :: post /\ Forall2 (rejected_by cfg b) pre rs /\
    cls_test cls b cfg = Accept /\ l = mkLayer (cls_name cls) b /\
    errs' = errs ++ rs.
Proof.
  revert errs. induction cat as [|c cat IH]; simpl; intros errs H; [discriminate|].
  destruct (cls_test c b cfg) eqn:E.
  - inversion H; subst. exists [], c, cat, []. rewrite app_nil_r. auto.
  - destruct (IH _ H) as (pre & cls & post & rs & -> & Hrs & Ha & -> & ->).
    exists (c :: pre), cls, post, ((cls_name c, reason) :: rs).
    repeat split; auto.
    + constructor; [split; auto|]; exact Hrs.
    + rewrite <- app_assoc. reflexivity.
  - discriminate.
Qed.

Lemma round_notfound (cat : list (ASClass Config)) b errs errs' :
  round cfg cat b errs = NotFound errs' ->
  exists rs, Forall2 (rejected_by cfg b) cat rs /\ errs' = errs ++ rs.
Proof.
  revert errs. induction cat as [|c cat IH]; simpl; intros errs H.
  - inversion H; subst. exists []. rewrite app_nil_r. auto.
  - destruct (cls_test c b cfg) eqn:E; try discriminate.
    destruct (IH _ H) as (rs & Hrs & ->).
    exists ((cls_name c, reason) :: rs). split.
    + constructor; [split; auto| exact Hrs].
    + rewrite <- app_assoc. reflexivity.
Qed.

Lemma round_all_reject (cat : list (ASClass Config)) b errs rs :
  Forall2 (rejected_by cfg b) cat rs ->
  round cfg cat b errs = NotFound (errs ++ rs).
Proof.
  intros H. revert errs. induction H as [|c p cat rs [Hn Ht] _ IH]; simpl; intros errs.
  - rewrite app_nil_r. reflexivity.
  - rewrite Ht, IH, <- app_assoc. destruct p; simpl in *; subst. reflexivity.
Qed.

Lemma round_first_accept pre cls post b errs rs :
  Forall2 (rejected_by cfg b) pre rs ->
  cls_test cls b cfg = Accept ->
  round cfg (pre ++ cls :: post) b errs =
    Found (mkLayer (cls_name cls) b) (errs ++ rs).
Proof.
  intros H Ha. revert errs. induction H as [|c p pre rs [Hn Ht] _ IH]; simpl; intros errs.
  - rewrite Ha, app_nil_r. reflexivity.
  - rewrite Ht, IH, <- app_assoc. destruct p; simpl in *; subst. reflexivity.
Qed.

Lemma vote_never_raises_after_accept (cat : list (ASClass Config)) fuel l errs e :
  vote cfg cat fuel (Some l) errs <> Some (Raised e).
Proof.
  revert l errs. induction fuel as [|f IH]; simpl; intros l errs; [discriminate|].
  destruct (round cfg cat (Some l) errs); [apply IH|discriminate|discriminate].
Qed.

Lemma vote_loaded_chain (cat : list (ASClass Config)) fuel b errs l :
  vote cfg cat fuel b errs = Some (Loaded l) -> VotingChain cfg cat b l.
Proof.
  revert b errs. induction fuel as [|f IH]; simpl; intros b errs H; [discriminate|].
  destruct (round cfg cat b errs) eqn:R.
  - destruct (round_found _ _ _ _ _ R) as (pre & cls & post & rs & Hc & Hrs & Ha & -> & _).
    eapply vc_step; eauto.
  - destruct (round_notfound _ _ _ _ R) as (rs & Hrs & _).
    destruct b as [b|]; inversion H; subst. eapply vc_stop; eauto.
  - discriminate.
Qed.

Lemma chain_vote (cat : list (ASClass Config)) b l :
  VotingChain cfg cat b l ->
  forall errs, exists fuel, vote cfg cat fuel b errs = Some (Loaded l).
Proof.
  induction 1 as [l rs Hrs|b pre cls post rs l Hc Hrs Ha _ IH]; intros errs.
  - exists 1. simpl. rewrite (round_all_reject _ _ errs _ Hrs). reflexivity.
  - destruct (IH (errs ++ rs)) as [f Hf]. exists (S f). simpl.
    replace (round cfg cat b errs)
      with (Found (mkLayer (cls_name cls) b) (errs ++ rs));
      [exact Hf| rewrite Hc; symmetry; apply round_first_accept; assumption].
Qed.

End Round.

Lemma all_reject_reasons {Config} (cfg : Config) (cat : list (ASClass Config)) b :
  (forall cls, In cls cat -> exists r, cls_test cls b cfg = Reject r) ->
  exists rs, Forall2 (rejected_by cfg b) cat rs.
Proof.
  induction cat as [|c cat IH]; intros H.
  - exists []. constructor.
  - destruct (H c (or_introl eq_refl)) as [r Hr].
    destruct IH as [rs Hrs]; [intros; apply H; right; assumption|].
    exists ((cls_name c, r) :: rs). constructor; [split; auto|exact Hrs].
Qed.

(** C1: when every catalogue class rejects the raw source (no layer is ever
    accepted), [load_as] raises one [AddrSpaceError] whose reasons hold, in
    catalogue order, exactly one (class name, rejection reason) pair per class
    of that round; conversely every [AddrSpaceError] it raises has this form,
    so it never carries only the last reason. *)
Theorem load_as_aggregated_error {Config} (cfg : Config) (cat : list (ASClass Config)) :
  ((forall cls, In cls cat -> exists r, cls_test cls None cfg = Reject r) ->
   forall fuel, exists rs,
     load_as cfg cat (S fuel) = Some (Raised {| reasons := rs |}) /\
     Forall2 (rejected_by cfg None) cat rs) /\
  (forall fuel e, load_as cfg cat fuel = Some (Raised e) ->
     Forall2 (rejected_by cfg None) cat (reasons e)).
Proof.
  split.
  - intros H fuel. destruct (all_reject_reasons cfg cat None H) as [rs Hrs].
    exists rs. split; [|exact Hrs].
    unfold load_as. simpl. rewrite (round_all_reject _ cfg cat None [] rs Hrs). reflexivity.
  - intros [|f] e H; [discriminate|]. unfold load_as in H. simpl in H.
    destruct (round cfg cat None []) eqn:R; try discriminate.
    + exfalso. eapply vote_never_raises_after_accept. exact H.
    + inversion H; subst. simpl.
      destruct (round_notfound _ _ _ _ _ _ R) as (rs & Hrs & ->). exact Hrs.
Qed.

(** C2: [load_as] agrees with the voting algorithm of the spec: every layer it
    returns is the end of a [VotingChain] from the raw source (the first
    accepting class of the whole catalogue wins each round, the next round
    restarts from the top, a round where all reject ends the loop, and the
    returned layer wraps every earlier winner); every such chain is returned
    by [load_as]; and once some layer was accepted, [load_as] never raises an
    [AddrSpaceError], whatever the later rounds do. *)
Theorem load_as_voting_rounds {Config} (cfg : Config) (cat : list (ASClass Config)) :
  (forall fuel l, load_as cfg cat fuel = Some (Loaded l) -> VotingChain cfg cat None l) /\
  (forall l, VotingChain cfg cat None l -> exists fuel, load_as cfg cat fuel = Some (Loaded l)) /\
  (forall fuel l errs e, vote cfg cat fuel (Some l) errs <> Some (Raised e)).
Proof.
  split; [|split].
  - intros fuel l H. eapply vote_loaded_chain. exact H.
  - intros l H. exact (chain_vote _ cfg cat None l H []).
  - intros. apply vote_never_raises_after_accept.
Qed.

(** Two classes that reject any base, for the C1 witness. *)
Definition reject_all (n : string) : ASClass unit :=
  {| cls_name := n; cls_test := fun _ _ => Reject ("not a " ++ n)%string |}.

Lemma load_as_aggregated_error_witness :
  exists rs,
    load_as tt [reject_all "FileAddressSpace"; reject_all "JKIA32PagedMemory"] 1 =
      Some (Raised {| reasons := rs |}) /\ List.length rs = 2.
Proof.
  destruct (proj1 (load_as_aggregated_error tt
              [reject_all "FileAddressSpace"; reject_all "JKIA32PagedMemory"])
              (fun cls Hin => ltac:(simpl in Hin;
                 destruct Hin as [<-|[<-|[]]]; eexists; reflexivity)) 0)
    as [rs [H1 H2]].
  exists rs. split; [exact H1|]. exact (eq_sym (Forall2_length H2)).
Defined.

(** *** A class that accepts every base *)

Lemma round_some_accept {Config} (cfg : Config) (cat : list (ASClass Config)) b errs :
  (exists c, In c cat /\ cls_test c b cfg = Accept) ->
  (forall c r, In c cat -> cls_test c b cfg <> Fault r) ->
  exists l errs', round cfg cat b errs = Found l errs'.
Proof.
  revert errs. induction cat as [|c cat IH]; intros errs [c0 [Hin Hacc]] Hnf; [destruct Hin|].
  simpl. destruct (cls_test c b cfg) as [|r|x] eqn:T.
  - eauto.
  - apply IH.
    + destruct Hin as [<-|Hin]; [congruence|eauto].
    + intros c' r' Hc'. apply Hnf. right. exact Hc'.
  - exfalso. apply (Hnf c x); [left; reflexivity|exact T].
Qed.

(** When some class of the catalogue accepts every base and no class raises
    anything but [AssertionError], every round is won, so the [while 1] loop
    of [load_as] never ends: no bound on the number of rounds is enough. *)
Theorem load_as_accept_all_diverges {Config} (cfg : Config) (cat : list (ASClass Config)) :
  (exists c, In c cat /\ forall b, cls_test c b cfg = Accept) ->
  (forall c b r, In c cat -> cls_test c b cfg <> Fault r) ->
  forall fuel, load_as cfg cat fuel = None.
Proof.
  intros [c [Hin Hacc]] Hnf fuel. unfold load_as.
  generalize (@None Layer) as b. generalize (@nil (string * string)) as errs.
  induction fuel as [|fuel IH]; intros errs b; [reflexivity|].
  simpl. destruct (round_some_accept cfg cat b errs) as (l & errs' & ->).
  - exists c. auto.
  - intros c' r Hc'. apply Hnf. exact Hc'.
  - apply IH.
Qed.

Definition accept_all (n : string) : ASClass unit :=
  {| cls_name := n; cls_test := fun _ _ => Accept |}.

Lemma load_as_accept_all_diverges_witness :
  load_as tt [reject_all "WindowsCrashDumpSpace32"; accept_all "FileAddressSpace"] 50 = None.
Proof.
  apply (load_as_accept_all_diverges tt
           [reject_all "WindowsCrashDumpSpace32"; accept_all "FileAddressSpace"]).
  - exists (accept_all "FileAddressSpace"). split; [right; left; reflexivity|reflexivity].
  - intros c b r [<-|[<-|[]]]; discriminate.
Defined.

End UtilsProofs.

(* ------------------------------------------------------------------ *)
(** ** Proofs about windows.py *)

Module WindowsProofs.
Import Windows.

(** *** Lists *)

Lemma firstn_S_nth {A} (l : list A) n d :
  n < length l -> firstn (S n) l = firstn n l ++ [nth n l d].
Proof.
  revert n. induction l as [|a l IH]; intros [|n] H; simpl in *; try lia; auto.
  rewrite IH by lia. reflexivity.
Qed.

Lemma skipn_nth_cons {A} (l : list A) n d :
  n < length l -> skipn n l = nth n l d :: skipn (S n) l.
Proof.
  revert n. induction l as [|a l IH]; intros [|n] H; simpl in *; try lia; auto.
  apply IH. lia.
Qed.

Lemma nth_not_in_firstn {A} (l : list A) n d :
  NoDup l -> n < length l -> ~ In (nth n l d) (firstn n l).
Proof.
  revert n. induction l as [|a l IH]; intros [|n] Hd H; simpl in *; try lia; auto.
  inversion Hd as [|? ? Ha Hl]; subst. intros [E|E].
  - apply Ha. rewrite E. apply nth_In. lia.
  - eapply IH; eauto. lia.
Qed.

Lemma existsb_eqb_in (x : Z) l : existsb (Z.eqb x) l = true <-> In x l.
Proof.
  rewrite existsb_exists. split.
  - intros (y & Hy & E). apply Z.eqb_eq in E. subst. exact Hy.
  - intros H. exists x. split; [exact H|apply Z.eqb_refl].
Qed.

Section Cycle.
Variable Flink Blink : Z -> Z.
Variable is_valid : Z -> bool.
Variable member_offset : Z.
Variable forward : bool.
(** The list entries of the elements E1 .. EN, in list order. *)
Variable ls : list Z.
Variable k : nat.
Hypothesis Hnodup : NoDup ls.
Hypothesis Hvalid : forall a, In a ls -> is_valid a = true.
Hypothesis Hk : k < length ls.
Hypothesis Hnext : forall i, S i < length ls ->
  follow Flink Blink forward (nth i ls 0%Z) = nth (S i) ls 0%Z.
Hypothesis Hback : follow Flink Blink forward (nth (pred (length ls)) ls 0%Z) = nth k ls 0%Z.

Lemma list_walk_cycle m :
  forall j fuel, j + m = pred (length ls) -> j < length ls -> m < fuel ->
  list_walk Flink Blink is_valid member_offset forward fuel (rev (firstn (S j) ls)) (nth j ls 0%Z)
  = Some (map (fun a => a - member_offset)%Z (firstn m (skipn j ls))).
Proof.
  induction m as [|m IH]; intros j [|f] Hj Hlt Hf; try lia; cbn [list_walk].
  - replace (nth j ls 0%Z - member_offset + member_offset)%Z with (nth j ls 0%Z) by lia.
    replace j with (pred (length ls)) by lia. rewrite Hback.
    rewrite Hvalid by (apply nth_In; lia). cbn [negb orb].
    replace (S (pred (length ls))) with (length ls) by lia.
    rewrite firstn_all. rewrite (proj2 (existsb_eqb_in (nth k ls 0%Z) (rev ls))); [reflexivity|].
    apply -> in_rev. apply nth_In. exact Hk.
  - replace (nth j ls 0%Z - member_offset + member_offset)%Z with (nth j ls 0%Z) by lia.
    rewrite Hnext by lia. rewrite Hvalid by (apply nth_In; lia). cbn [negb orb].
    destruct (existsb (Z.eqb (nth (S j) ls 0%Z)) (rev (firstn (S j) ls))) eqn:E.
    + exfalso. apply existsb_eqb_in, in_rev in E.
      exact (nth_not_in_firstn ls (S j) 0%Z Hnodup ltac:(lia) E).
    + replace (nth (S j) ls 0%Z :: rev (firstn (S j) ls)) with (rev (firstn (S (S j)) ls)).
      2:{ rewrite (firstn_S_nth ls (S j) 0%Z) by lia. rewrite rev_app_distr. reflexivity. }
      rewrite (IH (S j) f) by lia. rewrite (skipn_nth_cons ls j 0%Z) by lia. reflexivity.
Qed.

End Cycle.

(** C3 (code_bug): on a list wired into a cycle, with the header's link
    leading to the list entries E1 .. EN (pairwise distinct, all valid) and
    EN's link pointing back to some EK (K <= N), [list_of_type] terminates
    within N iterations, but it yields only E1 .. E(N-1), each once and in
    order: an item is yielded only after its own next link passed the [seen]
    check, so EN, whose link closes the cycle, is never yielded. *)
Theorem list_of_type_cycle (Flink Blink : Z -> Z) (is_valid : Z -> bool)
    (member_offset : Z) (forward : bool) (ls : list Z) (k : nat) (hdr : Z) :
  NoDup ls -> (forall a, In a ls -> is_valid a = true) -> is_valid hdr = true ->
  ls <> [] -> k < length ls ->
  follow Flink Blink forward hdr = nth 0 ls 0%Z ->
  (forall i, S i < length ls ->
     follow Flink Blink forward (nth i ls 0%Z) = nth (S i) ls 0%Z) ->
  follow Flink Blink forward (nth (pred (length ls)) ls 0%Z) = nth k ls 0%Z ->
  forall fuel, length ls <= fuel ->
  list_of_type Flink Blink is_valid member_offset hdr forward fuel
  = Some (map (fun a => a - member_offset)%Z (removelast ls)).
Proof.
  intros Hd Hv Hh Hne Hk H0 Hn Hb fuel Hf.
  unfold list_of_type. rewrite Hh. cbn [negb]. rewrite H0.
  replace [nth 0 ls 0%Z] with (rev (firstn 1 ls))
    by (destruct ls; [contradiction|reflexivity]).
  rewrite removelast_firstn_len.
  rewrite (list_walk_cycle Flink Blink is_valid member_offset forward ls k Hd Hv Hk Hn Hb
             (pred (length ls)) 0 fuel); [reflexivity| |destruct ls; [contradiction|simpl; lia]|].
  - reflexivity.
  - destruct ls; [contradiction|simpl in *; lia].
Qed.

(** A header at 8 and two elements whose list entries sit at 16 and 24; the
    second element's [Flink] points back to the first. *)
Definition cyc_flink (a : Z) : Z :=
  if Z.eqb a 8 then 16 else if Z.eqb a 16 then 24 else if Z.eqb a 24 then 16 else 0.

Lemma list_of_type_cycle_witness :
  list_of_type cyc_flink cyc_flink (fun _ => true) 0 8 true 2 = Some [16%Z].
Proof.
  exact (list_of_type_cycle cyc_flink cyc_flink (fun _ => true) 0 true [16; 24]%Z 0 8
           ltac:(repeat constructor; simpl; intuition lia)
           (fun _ _ => eq_refl) eq_refl ltac:(discriminate) ltac:(simpl; lia)
           eq_refl
           ltac:(intros [|[|i]] Hi; simpl in Hi; [reflexivity|lia|lia])
           eq_refl 2 ltac:(simpl; lia)).
Defined.

(** On the two-element cycle above (element 2's next link points back to
    element 1), the second element (entry 24) is never yielded, although the
    walk terminates. *)
Lemma list_of_type_cycle_drops_last :
  list_of_type cyc_flink cyc_flink (fun _ => true) 0 8 true 10 = Some [16%Z] /\
  ~ In 24%Z [16%Z].
Proof.
  split; [reflexivity|simpl; lia].
Qed.

(** *** VAD nodes *)

(** C6: [_MMVAD(...)] reads the 4-byte [Tag] string at [offset - 4] and
    builds the node with exactly the class [tag_map] gives for it
    ([_MMVAD_SHORT] or [_MMVAD_LONG]) at the same offset; for a tag outside
    [tag_map] the result is a [NoneObject] with a non-empty reason, never a
    node of a default class. *)
Theorem mmvad_new_tag_dispatch (read_string : Z -> Z -> string) (vm : bool) (offset : Z) :
  (forall ty o, mmvad_new read_string vm offset = VadNode ty o ->
     o = offset /\ dict_get tag_map (read_string (offset - 4) 4)%Z = Some ty) /\
  (forall ty, (4 <= offset)%Z -> vm = true ->
     dict_get tag_map (read_string (offset - 4) 4)%Z = Some ty ->
     mmvad_new read_string vm offset = VadNode ty offset) /\
  (dict_get tag_map (read_string (offset - 4) 4)%Z = None ->
     exists reason, reason <> EmptyString /\
                    mmvad_new read_string vm offset = VadNone reason).
Proof.
  unfold mmvad_new, Tag_offset, Tag_length.
  replace (offset + -4)%Z with (offset - 4)%Z by lia.
  split; [|split].
  - intros ty o H.
    destruct (offset <? 4)%Z; [discriminate|]. destruct vm; [|discriminate].
    cbv zeta in H. cbn [negb] in H.
    destruct (dict_get tag_map (read_string (offset - 4) 4)%Z) as [t|]; [|discriminate].
    destruct t; simpl in H; inversion H; subst; auto.
  - intros ty Ho Hvm Ht. subst vm.
    replace (offset <? 4)%Z with false by (symmetry; apply Z.ltb_ge; lia). cbn [negb].
    rewrite Ht. destruct ty; reflexivity.
  - intros Ht.
    destruct (offset <? 4)%Z; [eexists; split; [|reflexivity]; discriminate|].
    destruct vm; cbn [negb]; [rewrite Ht|]; eexists; split; [|reflexivity| |reflexivity]; discriminate.
Qed.

Lemma mmvad_new_tag_dispatch_witness :
  mmvad_new (fun _ _ => "VadS"%string) true 4096 = VadNode MMVAD_SHORT 4096.
Proof.
  exact (proj1 (proj2 (mmvad_new_tag_dispatch (fun _ _ => "VadS"%string) true 4096))
           MMVAD_SHORT ltac:(lia) eq_refl eq_refl).
Defined.

(** Two VAD nodes at 0x1000 and 0x2000, both tagged [VadS]: the root's left
    child is 0x2000 and 0x2000's left child points back to the root. *)
Definition back_left (a : Z) : Z :=
  if Z.eqb a 4096 then 8192 else if Z.eqb a 8192 then 4096 else 0.

(** C4 (code_bug): on this tree with a back-edge to the root, [traverse]
    yields the root twice: the root's own offset is never put in [visited]. *)
Lemma traverse_back_edge_to_root :
  traverse_root (fun _ _ => "VadS"%string) back_left (fun _ => 0%Z) true 10 4096
  = Some [4096; 8192; 4096]%Z.
Proof. reflexivity. Qed.

(** *** Handle tables *)

Section HandleTableProofs.
Local Open Scope Z_scope.
Variable is_valid : Z -> bool.
Variable read_address : Z -> Z.
Variable address_size handle_entry_size : Z.
Variable item_ok : Z -> bool.

Lemma leaf_entries_in off depth ps x :
  In x (leaf_entries is_valid handle_entry_size item_ok off depth ps) <->
  exists pre p post, ps = pre ++ p :: post /\
    Forall (fun q => is_valid (off + q * handle_entry_size) = true) pre /\
    is_valid (off + p * handle_entry_size) = true /\
    item_ok (off + p * handle_entry_size) = true /\
    x = (off + p * handle_entry_size,
         (off + p * handle_entry_size - off) / (handle_entry_size / 4)
         + depth * leaf_count handle_entry_size * 4).
Proof.
  induction ps as [|p ps IH]; simpl.
  - split; [intros []|]. intros (pre & p & post & E & _). destruct pre; discriminate.
  - destruct (is_valid (off + p * handle_entry_size)) eqn:V; simpl.
    + rewrite in_app_iff, IH. split.
      * intros [Hx|(pre & q & post & -> & Hpre & Hq)].
        -- destruct (item_ok (off + p * handle_entry_size)) eqn:I;
             [|destruct Hx].
           destruct Hx as [<-|[]]. exists [], p, ps. auto.
        -- exists (p :: pre), q, post. auto.
      * intros ([|q pre] & r & post & E & Hpre & Hr); simpl in E; inversion E; subst.
        -- left. destruct Hr as (_ & -> & ->). left. reflexivity.
        -- right. exists pre, r, post. inversion Hpre; auto.
    + split; [intros []|].
      intros ([|q pre] & r & post & E & Hpre & Hr); simpl in E; inversion E; subst.
      * destruct Hr as [Hr _]. congruence.
      * inversion Hpre; congruence.
Qed.

Lemma upper_entries_in rec off depth ps x :
  In x (upper_entries is_valid read_address address_size rec off depth ps) <->
  exists pre p post, ps = pre ++ p :: post /\
    Forall (fun q => is_valid (off + q * address_size) = true) pre /\
    is_valid (off + p * address_size) = true /\
    In x (rec (read_address (off + p * address_size)) (depth + Z.of_nat (length pre))).
Proof.
  revert depth. induction ps as [|p ps IH]; intros depth; simpl.
  - split; [intros []|]. intros (pre & p & post & E & _). destruct pre; discriminate.
  - destruct (is_valid (off + p * address_size)) eqn:V; simpl.
    + rewrite in_app_iff, IH. split.
      * intros [Hx|(pre & q & post & -> & Hpre & Hq & Hx)].
        -- exists [], p, ps. simpl. rewrite Z.add_0_r. auto.
        -- exists (p :: pre), q, post. simpl.
           replace (depth + Z.pos (Pos.of_succ_nat (length pre)))
             with (depth + 1 + Z.of_nat (length pre)) by lia. auto.
      * intros ([|q pre] & r & post & E & Hpre & Hr & Hx); simpl in E, Hx; inversion E; subst.
        -- left. rewrite Z.add_0_r in Hx. exact Hx.
        -- right. exists pre, r, post. inversion Hpre; subst. repeat split; auto.
           replace (depth + 1 + Z.of_nat (length pre))
             with (depth + Z.pos (Pos.of_succ_nat (length pre))) by lia. exact Hx.
    + split; [intros []|].
      intros ([|q pre] & r & post & E & Hpre & Hr); simpl in E; inversion E; subst.
      * destruct Hr as [Hr _]. congruence.
      * inversion Hpre; congruence.
Qed.

Lemma seq_split s n pre x post :
  seq s n = pre ++ x :: post -> pre = seq s (x - s) /\ (s <= x < s + n)%nat.
Proof.
  revert s pre. induction n as [|n IH]; intros s pre H; simpl in H.
  - destruct pre; discriminate.
  - destruct pre as [|y pre]; simpl in H; inversion H as [[Hy Ht]]; subst.
    + rewrite Nat.sub_diag. split; [reflexivity|lia].
    + destruct (IH (S y) pre Ht) as [-> Hb]. split; [|lia].
      replace (x - y)%nat with (S (x - S y)) by lia. reflexivity.
Qed.

Lemma positions_split n pre p post :
  positions n = pre ++ p :: post -> pre = positions p /\ 0 <= p < n.
Proof.
  unfold positions. intros H.
  apply map_eq_app in H as (l1 & l2 & E & <- & H2).
  apply map_eq_cons in H2 as (a & tl & -> & <- & _).
  apply seq_split in E as [-> Hb]. split.
  - rewrite Nat.sub_0_r, Nat2Z.id. reflexivity.
  - lia.
Qed.

Lemma positions_split_exists n p :
  0 <= p < n -> exists post, positions n = positions p ++ p :: post.
Proof.
  unfold positions. intros H.
  exists (map Z.of_nat (seq (S (Z.to_nat p)) (Z.to_nat n - S (Z.to_nat p)))).
  replace (Z.to_nat n) with (Z.to_nat p + S (Z.to_nat n - S (Z.to_nat p)))%nat at 1 by lia.
  rewrite seq_app, map_app. simpl. rewrite Z2Nat.id by lia. reflexivity.
Qed.

Lemma Forall_positions (P : Z -> Prop) p :
  Forall P (positions p) <-> forall q, 0 <= q < p -> P q.
Proof.
  unfold positions. rewrite Forall_map, Forall_forall. split.
  - intros H q Hq. replace q with (Z.of_nat (Z.to_nat q)) by lia.
    apply H. apply in_seq. lia.
  - intros H x Hx. apply in_seq in Hx. apply H. lia.
Qed.

Lemma length_positions p : 0 <= p -> Z.of_nat (length (positions p)) = p.
Proof.
  intros H. unfold positions. rewrite length_map, length_seq. lia.
Qed.

Lemma handle_offset_div off p s :
  4 <= s -> s mod 4 = 0 -> (off + p * s - off) / (s / 4) = 4 * p.
Proof.
  intros H4 Hm.
  assert (Hs : s = 4 * (s / 4)) by (apply Z_div_exact_full_2; lia).
  replace (off + p * s - off) with ((4 * p) * (s / 4)) by (rewrite Hs at 2; lia).
  apply Z.div_mul. lia.
Qed.

(** C5 (amended): on a two-level handle table (level bits [TableCode & 7 = 1]),
    [handles] yields exactly the entries at position [p] of the leaf page
    reached through top-level entry [d], for which top-level entries [0 .. d]
    and leaf entries [0 .. p] of that page are all valid (the walk of a page
    stops at its first invalid entry, other pages are unaffected) and the
    object header is accepted; the handle value is
    [4 * p + d * page_capacity * 4], i.e. the multiplier 4 also scales the
    position. *)
Theorem handles_two_level TableCode_v e hv :
  4 <= handle_entry_size -> handle_entry_size mod 4 = 0 ->
  Z.land TableCode_v 7 = 1 ->
  let base := Z.land TableCode_v (Z.lnot 7) in
  (In (e, hv) (handles is_valid read_address address_size handle_entry_size item_ok TableCode_v)
   <->
   is_valid base = true /\
   exists d p, 0 <= d < upper_count address_size /\ 0 <= p < leaf_count handle_entry_size /\
     (forall d', 0 <= d' <= d -> is_valid (base + d' * address_size) = true) /\
     let page := read_address (base + d * address_size) in
     is_valid page = true /\
     (forall p', 0 <= p' <= p -> is_valid (page + p' * handle_entry_size) = true) /\
     item_ok (page + p * handle_entry_size) = true /\
     e = page + p * handle_entry_size /\
     hv = 4 * p + d * leaf_count handle_entry_size * 4).
Proof.
  intros H4 Hm Hl base.
  unfold handles, LEVEL_MASK. rewrite Hl. fold base. change (Z.to_nat 1) with 1%nat.
  cbn [make_handle_array].
  destruct (is_valid base) eqn:Vb; cbn [negb]; [|split; [intros []|intros [? _]; discriminate]].
  rewrite upper_entries_in. split.
  - intros (pre & d & post & E & Hpre & Hd & Hx).
    apply positions_split in E as [-> Hdb].
    rewrite length_positions in Hx by lia. rewrite Z.add_0_l in Hx.
    cbn [make_handle_array] in Hx.
    destruct (is_valid (read_address (base + d * address_size))) eqn:Vp;
      cbn [negb] in Hx; [|destruct Hx].
    apply leaf_entries_in in Hx as (pre' & p & post' & E' & Hpre' & Hp & Hi & Hx).
    apply positions_split in E' as [-> Hpb]. inversion Hx; subst e hv.
    split; [reflexivity|]. exists d, p. repeat split; try lia; auto.
    + intros d' Hd'. destruct (Z.eq_dec d' d) as [->|Ne]; [exact Hd|].
      apply (proj1 (Forall_positions _ d) Hpre). lia.
    + intros p' Hp'. destruct (Z.eq_dec p' p) as [->|Ne]; [exact Hp|].
      apply (proj1 (Forall_positions _ p) Hpre'). lia.
    + rewrite handle_offset_div by assumption. reflexivity.
  - intros [_ (d & p & Hdb & Hpb & Hd & Hp & Hpp & Hi & -> & ->)].
    destruct (positions_split_exists (upper_count address_size) d Hdb) as [post E].
    exists (positions d), d, post. split; [exact E|]. split.
    { apply Forall_positions. intros; apply Hd; lia. }
    split; [apply Hd; lia|].
    rewrite length_positions by lia. rewrite Z.add_0_l.
    cbn [make_handle_array]. rewrite Hp. cbn [negb].
    destruct (positions_split_exists (leaf_count handle_entry_size) p Hpb) as [post' E'].
    apply leaf_entries_in. exists (positions p), p, post'. split; [exact E'|]. split.
    { apply Forall_positions. intros; apply Hpp; lia. }
    split; [apply Hpp; lia|]. split; [exact Hi|].
    rewrite handle_offset_div by assumption. reflexivity.
Qed.

End HandleTableProofs.

(** A two-level table at 0x10000 (TableCode 0x10001, 4-byte pointers, 8-byte
    entries): one valid top-level entry pointing to the leaf page 0x20000,
    whose entries 0, 1 and 2 are valid and entry 3 is not. *)
Definition ht_valid (a : Z) : bool :=
  (Z.eqb a 65536 || (Z.leb 131072 a && Z.leb a 131088))%bool.

Lemma handles_two_level_witness :
  In (131080, 4)%Z (handles ht_valid (fun _ => 131072%Z) 4 8 (fun _ => true) 65537).
Proof.
  apply (proj2 (handles_two_level ht_valid (fun _ => 131072%Z) 4 8 (fun _ => true)
                  65537 131080 4 ltac:(lia) eq_refl eq_refl)).
  split; [reflexivity|]. exists 0%Z, 1%Z.
  split; [vm_compute; split; congruence|].
  split; [vm_compute; split; congruence|].
  split; [intros d' Hd'; replace d' with 0%Z by lia; reflexivity|].
  split; [reflexivity|].
  split; [intros p' Hp'; unfold ht_valid; apply orb_true_iff; right;
          apply andb_true_iff; split; apply Z.leb_le; lia|].
  split; [reflexivity|]. split; reflexivity.
Defined.

(** C5 as stated fails: on that table the entry at position 1 of the leaf
    page at depth 0 gets handle value 4, not [1 + 0 * 512 * 4 = 1]. *)
Lemma handles_position_scaled :
  handles ht_valid (fun _ => 131072%Z) 4 8 (fun _ => true) 65537
  = [(131072, 0); (131080, 4); (131088, 8)]%Z /\
  ~ In (131080, 1 + 0 * leaf_count 8 * 4)%Z [(131072, 0); (131080, 4); (131088, 8)]%Z.
Proof.
  split; [vm_compute; reflexivity|].
  vm_compute. intros [H|[H|[H|[]]]]; discriminate.
Qed.

(** *** IA32 validator *)

Lemma opt_eqb_spec a b : opt_eqb a b = true <-> a = b.
Proof.
  destruct a as [x|], b as [y|]; simpl; split; intros H; try discriminate; auto.
  - apply Z.eqb_eq in H. subst. reflexivity.
  - inversion H. apply Z.eqb_refl.
Qed.

Lemma self_map_check_spec pae dtb get_pdpte vtop :
  self_map_check pae dtb get_pdpte vtop = true <->
  exists pd, pd_value pae dtb get_pdpte = Ok pd /\ vtop (pde_base pae) = Ok (Some pd).
Proof.
  unfold self_map_check. destruct (pd_value pae dtb get_pdpte) as [pd|].
  - destruct (vtop (pde_base pae)) as [r|].
    + rewrite opt_eqb_spec. split.
      * intros ->. exists pd. auto.
      * intros (pd' & H1 & H2). inversion H1; inversion H2; subst. reflexivity.
    + split; [discriminate|]. intros (pd' & _ & H). discriminate.
  - split; [discriminate|]. intros (pd' & H & _). discriminate.
Qed.

(** C7: the IA32 validator yields [True] when the page-directory self-map
    holds ([vtop(pde_base)] equals the page-directory base); otherwise, also
    when that first test raised [ASAssertionError], it falls back to the
    [_KUSER_SHARED_DATA] test and yields [True] when both virtual addresses
    translate to the same non-[None] address and [False] when they translate
    otherwise; it only ever yields one verdict, and [False] only when both
    tests failed. *)
Theorem ia32_valid_as_verdict pae dtb get_pdpte vtop :
  let self_map := exists pd, pd_value pae dtb get_pdpte = Ok pd /\
                             vtop (pde_base pae) = Ok (Some pd) in
  let result := generate_suggestions pae dtb get_pdpte vtop in
  (self_map -> result = Ok [true]) /\
  (~ self_map ->
     (forall x, vtop KUSER_SHARED_DATA_kernel = Ok (Some x) ->
                vtop KUSER_SHARED_DATA_user = Ok (Some x) -> result = Ok [true]) /\
     (forall a b, vtop KUSER_SHARED_DATA_kernel = Ok a ->
                  vtop KUSER_SHARED_DATA_user = Ok b ->
                  ~ (a = b /\ a <> None) -> result = Ok [false])) /\
  (forall l, result = Ok l -> l = [true] \/ l = [false]) /\
  (result = Ok [false] ->
     ~ self_map /\
     exists a b, vtop KUSER_SHARED_DATA_kernel = Ok a /\
                 vtop KUSER_SHARED_DATA_user = Ok b /\ ~ (a = b /\ a <> None)).
Proof.
  intros self_map result. unfold result, generate_suggestions.
  pose proof (self_map_check_spec pae dtb get_pdpte vtop) as Hs.
  split; [|split; [|split]].
  - intros H. apply Hs in H. rewrite H. reflexivity.
  - intros Hn. assert (Hf : self_map_check pae dtb get_pdpte vtop = false).
    { destruct (self_map_check pae dtb get_pdpte vtop); [exfalso; apply Hn, Hs|]; reflexivity. }
    rewrite Hf. split.
    + intros x Hk Hu. rewrite Hk, Hu. simpl. rewrite Z.eqb_refl. reflexivity.
    + intros a b Hk Hu Hne. rewrite Hk, Hu.
      destruct (opt_eqb a b) eqn:E; [|reflexivity].
      apply opt_eqb_spec in E. subst b.
      destruct a as [x|]; [exfalso; apply Hne; split; [reflexivity|discriminate]|reflexivity].
  - intros l. destruct (self_map_check pae dtb get_pdpte vtop).
    { intros H; inversion H; auto. }
    destruct (vtop KUSER_SHARED_DATA_kernel) as [a|]; [|discriminate].
    destruct (vtop KUSER_SHARED_DATA_user) as [b|]; [|discriminate].
    destruct (opt_eqb a b); [|intros H; inversion H; auto].
    destruct (negb (opt_eqb a None)); intros H; inversion H; auto.
  - destruct (self_map_check pae dtb get_pdpte vtop) eqn:Hc; [discriminate|].
    intros H. split.
    { intros Hm. apply Hs in Hm. congruence. }
    destruct (vtop KUSER_SHARED_DATA_kernel) as [a|] eqn:Hk; [|discriminate].
    destruct (vtop KUSER_SHARED_DATA_user) as [b|] eqn:Hu; [|discriminate].
    exists a, b. split; [reflexivity|]. split; [reflexivity|].
    intros [<- Hne]. rewrite (proj2 (opt_eqb_spec a a) eq_refl) in H.
    destruct a as [x|]; [|apply Hne; reflexivity].
    simpl in H. discriminate.
Qed.

(** A non-PAE space whose [vtop] maps 0xc0300000 to the directory base 0x39000. *)
Definition selfmap_vtop (a : Z) : Try (option Z) :=
  if Z.eqb a 3224371200 then Ok (Some 233472%Z) else Ok None.

Lemma ia32_valid_as_verdict_witness :
  generate_suggestions false 233472 (fun _ => ASAssertionError) selfmap_vtop = Ok [true].
Proof.
  apply (proj1 (ia32_valid_as_verdict false 233472 (fun _ => ASAssertionError) selfmap_vtop)).
  exists 233472%Z. split; reflexivity.
Defined.

(** *** Optional object headers *)

(** C8 (amended): for each of the three optional headers, the attribute that
    [find_optional_headers] sets depends only on the profile knowing that
    header's type and on the header's own [<name>Offset] field: when the
    profile has the type, a zero offset gives the [NoneObject]
    ["Header not set"] and a nonzero offset gives the header object at
    [obj_offset - offset]; when the profile lacks the type, no attribute is
    set for it at all. *)
Theorem optional_headers_independent has_type member_v obj_offset name objtype :
  In (name, objtype) optional_headers ->
  dict_get (find_optional_headers has_type member_v obj_offset) name =
  if has_type objtype then
    Some (if Z.eqb (member_v (name ++ "Offset")%string) 0
          then HeaderNone "Header not set"%string
          else HeaderObj objtype (obj_offset - member_v (name ++ "Offset")%string)%Z)
  else None.
Proof.
  intros Hin. simpl in Hin.
  unfold find_optional_headers, optional_headers. cbn [find_headers].
  destruct (has_type "_OBJECT_HEADER_NAME_INFO"%string) eqn:E1,
           (has_type "_OBJECT_HEADER_HANDLE_INFO"%string) eqn:E2,
           (has_type "_OBJECT_HEADER_QUOTA_INFO"%string) eqn:E3;
  destruct Hin as [H|[H|[H|[]]]]; inversion H; subst; rewrite ?E1, ?E2, ?E3; simpl;
  repeat match goal with
         | |- context [Z.eqb ?x 0] => destruct (Z.eqb x 0)
         end; reflexivity.
Qed.

Lemma optional_headers_independent_witness :
  dict_get (find_optional_headers (fun _ => true)
              (fun f => if String.eqb f "HandleInfoOffset" then 16%Z else 0%Z) 4096)
           "HandleInfo" = Some (HeaderObj "_OBJECT_HEADER_HANDLE_INFO" 4080).
Proof.
  rewrite (optional_headers_independent (fun _ => true)
             (fun f => if String.eqb f "HandleInfoOffset" then 16%Z else 0%Z) 4096
             "HandleInfo" "_OBJECT_HEADER_HANDLE_INFO" ltac:(simpl; auto)).
  reflexivity.
Defined.

(** C8 as stated fails: with a profile that has no
    [_OBJECT_HEADER_QUOTA_INFO] type, a zero [QuotaInfoOffset] yields no
    [QuotaInfo] value at all, not an absent ([NoneObject]) one. *)
Lemma optional_header_without_type :
  dict_get (find_optional_headers
              (fun t => negb (String.eqb t "_OBJECT_HEADER_QUOTA_INFO"))
              (fun _ => 0%Z) 4096) "QuotaInfo" = None /\
  dict_get (find_optional_headers
              (fun t => negb (String.eqb t "_OBJECT_HEADER_QUOTA_INFO"))
              (fun _ => 0%Z) 4096) "NameInfo" = Some (HeaderNone "Header not set").
Proof. split; reflexivity. Qed.

(** *** Fast references *)

Lemma testbit_small (t i : Z) : (0 <= t < 8)%Z -> (3 <= i)%Z -> Z.testbit t i = false.
Proof.
  intros Ht Hi. replace i with ((i - 3) + 3)%Z by lia.
  rewrite <- Z.shiftr_spec by lia. rewrite Z.shiftr_div_pow2 by lia.
  change (2 ^ 3)%Z with 8%Z. rewrite Z.div_small by lia. apply Z.testbit_0_l.
Qed.

Lemma land_lor_clear_tag (pointer tag : Z) :
  Z.land pointer 7 = 0%Z -> (0 <= tag <= 7)%Z ->
  Z.land (Z.lor pointer tag) (Z.lnot 7) = pointer.
Proof.
  intros Hp Ht. apply Z.bits_inj'. intros i Hi.
  rewrite Z.land_spec, Z.lor_spec, Z.lnot_spec by lia.
  destruct (Z.lt_ge_cases i 3) as [Hlt|Hge].
  - assert (H7 : Z.testbit 7 i = true).
    { assert (Hc : i = 0%Z \/ i = 1%Z \/ i = 2%Z) by lia.
      destruct Hc as [E|[E|E]]; rewrite E; reflexivity. }
    assert (Hpi : Z.testbit pointer i = false).
    { pose proof (Z.land_spec pointer 7 i) as E. rewrite Hp, Z.testbit_0_l, H7 in E.
      rewrite andb_true_r in E. congruence. }
    rewrite H7, Hpi. simpl. rewrite andb_false_r. reflexivity.
  - rewrite (testbit_small 7 i), (testbit_small tag i) by lia.
    rewrite orb_false_r, andb_true_r. reflexivity.
Qed.

(** C9: for a word [pointer | tag] with the low 3 bits of [pointer] clear
    and [tag] in [0, 7], [dereference_as] builds the object of the requested
    type at exactly [pointer]; the object's parent is the given parent when
    one is passed (and is true) and the fast reference itself when none is;
    the extra keyword arguments are passed on. *)
Theorem fast_ref_dereference_as (Obj : Type) (truthy : Obj -> bool) (self : Obj)
    (pointer tag : Z) (theType : string) (parent : option Obj) (kwargs : list (string * Z)) :
  Z.land pointer 7 = 0%Z -> (0 <= tag <= 7)%Z ->
  let r := dereference_as Obj truthy self (Z.lor pointer tag) theType parent kwargs in
  req_offset Obj r = pointer /\ req_type Obj r = theType /\ req_kwargs Obj r = kwargs /\
  (forall p, parent = Some p -> truthy p = true -> req_parent Obj r = p) /\
  (parent = None -> req_parent Obj r = self).
Proof.
  intros Hp Ht r. unfold r, dereference_as, MAX_FAST_REF; simpl.
  rewrite land_lor_clear_tag by assumption.
  split; [reflexivity|]. split; [reflexivity|]. split; [reflexivity|]. split.
  - intros p -> Hq. rewrite Hq. reflexivity.
  - intros ->. reflexivity.
Qed.

Lemma fast_ref_dereference_as_witness :
  req_offset nat (dereference_as nat (fun _ => true) 0%nat (Z.lor 2166572392 5)
                    "_EPROCESS" None []) = 2166572392%Z.
Proof.
  exact (proj1 (fast_ref_dereference_as nat (fun _ => true) 0%nat 2166572392 5
                  "_EPROCESS" None [] eq_refl ltac:(lia))).
Defined.

(** *** Windows time stamps *)

(** C10: [windows_to_unix_time] never returns a negative number; a raw 0
    gives 0, and every raw value whose conversion is negative (before the
    Unix epoch), in particular every positive raw value below
    [11644473600 * 10^7], gives 0 as well; so [WinTimeStamp.v] is never
    negative either. *)
Theorem windows_to_unix_time_clamped (windows_time word : Z) :
  (0 <= windows_to_unix_time windows_time)%Z /\
  windows_to_unix_time 0 = 0%Z /\
  ((windows_time / 10000000 - 11644473600 < 0)%Z -> windows_to_unix_time windows_time = 0%Z) /\
  ((0 < windows_time < 11644473600 * 10000000)%Z -> windows_to_unix_time windows_time = 0%Z) /\
  (0 <= WinTimeStamp_v word)%Z.
Proof.
  assert (Hnn : forall w, (0 <= windows_to_unix_time w)%Z).
  { intros w. unfold windows_to_unix_time.
    destruct (Z.eqb w 0); [reflexivity|].
    destruct (Z.ltb_spec (w / 10000000 - 11644473600) 0); lia. }
  split; [apply Hnn|]. split; [reflexivity|].
  assert (Hneg : (windows_time / 10000000 - 11644473600 < 0)%Z ->
                 windows_to_unix_time windows_time = 0%Z).
  { intros H. unfold windows_to_unix_time.
    destruct (Z.eqb windows_time 0); [reflexivity|].
    destruct (Z.ltb_spec (windows_time / 10000000 - 11644473600) 0); lia. }
  split; [exact Hneg|]. split.
  - intros H. apply Hneg.
    assert (windows_time / 10000000 < 11644473600)%Z
      by (apply Z.div_lt_upper_bound; lia). lia.
  - apply Hnn.
Qed.

Lemma windows_to_unix_time_clamped_witness :
  windows_to_unix_time 1000 = 0%Z.
Proof.
  exact (proj1 (proj2 (proj2 (proj2 (windows_to_unix_time_clamped 1000 0)))) ltac:(lia)).
Defined.

(** *** [list_of_type] never yields an element twice *)

Section ListNoDup.
Variable Flink Blink : Z -> Z.
Variable is_valid : Z -> bool.
Variable member_offset : Z.
Variable forward : bool.

Lemma list_walk_nodup fuel seen lst ys :
  list_walk Flink Blink is_valid member_offset forward fuel seen lst = Some ys ->
  In lst seen ->
  NoDup ys /\
  forall y, In y ys -> (y + member_offset = lst \/ ~ In (y + member_offset) seen)%Z.
Proof.
  revert seen lst ys. induction fuel as [|f IH]; intros seen lst ys H Hin;
    cbn [list_walk] in H; [discriminate|].
  set (lst' := follow Flink Blink forward (lst - member_offset + member_offset)) in H.
  destruct (negb (is_valid lst') || existsb (Z.eqb lst') seen)%bool eqn:C.
  - inversion H; subst. split; [constructor|intros y []].
  - apply orb_false_iff in C as [_ C].
    assert (Hn : ~ In lst' seen) by (intros Hi; apply existsb_eqb_in in Hi; congruence).
    destruct (list_walk Flink Blink is_valid member_offset forward f (lst' :: seen) lst')
      as [l|] eqn:W; cbn in H; [|discriminate].
    inversion H; subst ys.
    destruct (IH _ _ _ W (or_introl eq_refl)) as [Hnd Hl]. split.
    + constructor; [|exact Hnd]. intros Hi.
      destruct (Hl _ Hi) as [E|E]; replace (lst - member_offset + member_offset)%Z with lst in E by lia.
      * apply Hn. rewrite <- E. exact Hin.
      * apply E. right. exact Hin.
    + intros y [<-|Hy]; [left; lia|].
      destruct (Hl _ Hy) as [E|E]; right.
      * rewrite E. exact Hn.
      * intros Hi. apply E. right. exact Hi.
Qed.

End ListNoDup.

(** However the [Flink]/[Blink] pointers in the image are laid out
    (corrupted lists and cycles included), [list_of_type] never yields the
    same element twice. *)
Theorem list_of_type_nodup (Flink Blink : Z -> Z) (is_valid : Z -> bool)
    (member_offset self : Z) (forward : bool) (fuel : nat) (ys : list Z) :
  list_of_type Flink Blink is_valid member_offset self forward fuel = Some ys ->
  NoDup ys.
Proof.
  unfold list_of_type. destruct (negb (is_valid self)).
  - intros H. inversion H. constructor.
  - intros H. exact (proj1 (list_walk_nodup _ _ _ _ _ _ _ _ _ H (or_introl eq_refl))).
Qed.

(** A three-element ring 100 -> 200 -> 300 -> 100. *)
Definition ring_flink (a : Z) : Z :=
  if Z.eqb a 100 then 200 else if Z.eqb a 200 then 300 else 100.

Lemma list_of_type_nodup_witness :
  list_of_type ring_flink ring_flink (fun _ => true) 0 100 true 10 = Some [200; 300]%Z /\
  NoDup [200; 300]%Z.
Proof.
  split; [reflexivity|].
  apply (list_of_type_nodup ring_flink ring_flink (fun _ => true) 0 100 true 10).
  reflexivity.
Defined.

(** *** [get_vads]: each VAD once, except the root *)

Section VadWalk.
Variable read_string : Z -> Z -> string.
Variable LeftChild RightChild : Z -> Z.
Variable vm : bool.

(** The offset carries a tag known to [tag_map]. *)
Definition vad_ok (y : Z) : Prop :=
  (4 <= y)%Z /\ exists t, dict_get tag_map (read_string (y + Tag_offset) Tag_length) = Some t.

Lemma mmvad_new_node ptr ty o :
  mmvad_new read_string vm ptr = VadNode ty o -> o = ptr /\ vad_ok ptr.
Proof.
  unfold mmvad_new. destruct (ptr <? 4)%Z eqn:L; [discriminate|].
  destruct vm; cbn [negb]; [|discriminate].
  destruct (dict_get tag_map (read_string (ptr + Tag_offset) Tag_length)) as [t|] eqn:D;
    [|discriminate].
  intros H. assert (o = ptr) by (destruct (VadType_eqb MMVAD_LONG t); congruence).
  split; [assumption|]. split; [lia|]. exists t. exact D.
Qed.

Lemma child_ok ptr o : child read_string vm ptr = Some o -> vad_ok o.
Proof.
  unfold child. destruct (mmvad_new read_string vm ptr) as [ty o'|] eqn:M; [|discriminate].
  intros H. inversion H; subst o'. apply mmvad_new_node in M as [-> Hk]. exact Hk.
Qed.

Definition traverse_inv (ys v v' : list Z) : Prop :=
  NoDup ys /\ (forall y, In y ys -> ~ In y v /\ vad_ok y) /\ v' = rev ys ++ v.

Lemma traverse_nested fuel self v ys v' :
  traverse read_string LeftChild RightChild vm fuel false self v = Some (ys, v') ->
  vad_ok self -> traverse_inv ys v v'.
Proof.
  revert self v ys v'. induction fuel as [|f IH]; intros self v ys v' H Hs;
    cbn [traverse] in H; [discriminate|].
  assert (Hsub : forall c w zs w',
    match c with Some o => traverse read_string LeftChild RightChild vm f false o w
               | None => Some ([], w) end = Some (zs, w') ->
    (forall o, c = Some o -> vad_ok o) -> traverse_inv zs w w').
  { intros [o|] w zs w' Hc Ho.
    - exact (IH _ _ _ _ Hc (Ho o eq_refl)).
    - inversion Hc; subst. split; [constructor|]. split; [intros y []|reflexivity]. }
  destruct (existsb (Z.eqb self) v) eqn:E.
  - inversion H; subst. split; [constructor|]. split; [intros y []|reflexivity].
  - assert (Hn : ~ In self v) by (intros Hi; apply existsb_eqb_in in Hi; congruence).
    destruct (match child read_string vm (LeftChild self) with
              | Some o => traverse read_string LeftChild RightChild vm f false o (self :: v)
              | None => Some ([], self :: v) end) as [[ysl v2]|] eqn:Hl; [|discriminate].
    destruct (match child read_string vm (RightChild self) with
              | Some o => traverse read_string LeftChild RightChild vm f false o v2
              | None => Some ([], v2) end) as [[ysr v3]|] eqn:Hr; [|discriminate].
    inversion H; subst ys v'.
    destruct (Hsub _ _ _ _ Hl (child_ok _)) as (Hndl & Hinl & ->).
    destruct (Hsub _ _ _ _ Hr (child_ok _)) as (Hndr & Hinr & ->).
    split; [|split].
    + constructor.
      * rewrite in_app_iff. intros [Hi|Hi].
        -- apply (proj1 (Hinl _ Hi)). left. reflexivity.
        -- apply (proj1 (Hinr _ Hi)). rewrite in_app_iff. right. left. reflexivity.
      * apply NoDup_app; [exact Hndl|exact Hndr|].
        intros y Hy Hy'. apply (proj1 (Hinr _ Hy')). rewrite in_app_iff, <- in_rev. left. exact Hy.
    + intros y [<-|Hy]; [split; assumption|].
      rewrite in_app_iff in Hy. destruct Hy as [Hy|Hy].
      * destruct (Hinl _ Hy) as [Hy1 Hy2]. split; [|exact Hy2]. intros Hi. apply Hy1. right. exact Hi.
      * destruct (Hinr _ Hy) as [Hy1 Hy2]. split; [|exact Hy2].
        intros Hi. apply Hy1. rewrite in_app_iff. right. right. exact Hi.
    + simpl. rewrite rev_app_distr, <- !app_assoc. reflexivity.
Qed.

Lemma traverse_top fuel root ys v' :
  traverse read_string LeftChild RightChild vm fuel true root [] = Some (ys, v') ->
  vad_ok root ->
  exists rest, ys = root :: rest /\ NoDup rest /\ Forall vad_ok ys.
Proof.
  intros H Hroot. destruct fuel as [|f]; cbn [traverse] in H; [discriminate|].
  cbn [existsb] in H.
  assert (Hsub : forall c w zs w',
    match c with Some o => traverse read_string LeftChild RightChild vm f false o w
               | None => Some ([], w) end = Some (zs, w') ->
    (forall o, c = Some o -> vad_ok o) -> traverse_inv zs w w').
  { intros [o|] w zs w' Hc Ho.
    - exact (traverse_nested _ _ _ _ _ Hc (Ho o eq_refl)).
    - inversion Hc; subst. split; [constructor|]. split; [intros y []|reflexivity]. }
  destruct (match child read_string vm (LeftChild root) with
            | Some o => traverse read_string LeftChild RightChild vm f false o []
            | None => Some ([], []) end) as [[ysl v2]|] eqn:Hl; [|discriminate].
  destruct (match child read_string vm (RightChild root) with
            | Some o => traverse read_string LeftChild RightChild vm f false o v2
            | None => Some ([], v2) end) as [[ysr v3]|] eqn:Hr; [|discriminate].
  inversion H; subst ys v'.
  destruct (Hsub _ _ _ _ Hl (child_ok _)) as (Hndl & Hinl & ->).
  destruct (Hsub _ _ _ _ Hr (child_ok _)) as (Hndr & Hinr & _).
  exists (ysl ++ ysr). split; [reflexivity|]. split.
  - apply NoDup_app; [exact Hndl|exact Hndr|].
    intros y Hy Hy'. apply (proj1 (Hinr _ Hy')). rewrite app_nil_r, <- in_rev. exact Hy.
  - constructor; [exact Hroot|]. apply Forall_forall. intros y Hy.
    rewrite in_app_iff in Hy. destruct Hy as [Hy|Hy]; [exact (proj2 (Hinl _ Hy))|exact (proj2 (Hinr _ Hy))].
Qed.

End VadWalk.

(** [get_vads] yields only VADs whose tag is known to [tag_map] (at offsets
    of at least 4); the first one is the [VadRoot] itself, and after it no
    offset comes twice (the root alone may come back once more, through a
    back edge). *)
Theorem get_vads_yields_once (read_string : Z -> Z -> string) (LeftChild RightChild : Z -> Z)
    (procspace : bool) (VadRoot : Z) (fuel : nat) (ys : list Z) :
  get_vads read_string LeftChild RightChild procspace VadRoot fuel = Some ys ->
  Forall (fun y => (4 <= y)%Z /\
            exists t, dict_get tag_map (read_string (y + Tag_offset)%Z Tag_length) = Some t) ys /\
  NoDup (tl ys) /\ (ys = [] \/ hd 0%Z ys = VadRoot).
Proof.
  unfold get_vads. destruct procspace; cbn [negb].
  - destruct (mmvad_new read_string true VadRoot) as [ty o|r] eqn:M.
    + apply mmvad_new_node in M as [-> Hok]. unfold traverse_root.
      destruct (traverse read_string LeftChild RightChild true fuel true VadRoot [])
        as [[zs v']|] eqn:T; cbn; intros H; inversion H; subst ys.
      destruct (traverse_top _ _ _ _ _ _ _ _ T Hok) as (rest & -> & Hnd & Hf).
      split; [exact Hf|]. split; [exact Hnd|]. right. reflexivity.
    + intros H. inversion H. split; [constructor|]. split; [constructor|]. left. reflexivity.
  - intros H. inversion H. split; [constructor|]. split; [constructor|]. left. reflexivity.
Qed.

Lemma get_vads_yields_once_witness :
  get_vads (fun _ _ => "VadS"%string) back_left (fun _ => 0%Z) true 4096 10
  = Some [4096; 8192; 4096]%Z /\ NoDup [8192; 4096]%Z.
Proof.
  assert (H : get_vads (fun _ _ => "VadS"%string) back_left (fun _ => 0%Z) true 4096 10
              = Some [4096; 8192; 4096]%Z) by reflexivity.
  split; [exact H|].
  exact (proj1 (proj2 (get_vads_yields_once _ _ _ _ _ _ _ H))).
Defined.

(** *** Handle tables of any depth *)

Section HandleLevels.
Local Open Scope Z_scope.
Variable is_valid : Z -> bool.
Variable read_address : Z -> Z.
Variable address_size handle_entry_size : Z.
Variable item_ok : Z -> bool.
Hypothesis H4 : 4 <= handle_entry_size.
Hypothesis Hm : handle_entry_size mod 4 = 0.

Lemma make_handle_array_entries level off depth x :
  In x (make_handle_array is_valid read_address address_size handle_entry_size item_ok
          level off depth) ->
  is_valid (fst x) = true /\ item_ok (fst x) = true /\ snd x mod 4 = 0.
Proof.
  revert off depth. induction level as [|l IH]; intros off depth Hx;
    cbn [make_handle_array] in Hx; destruct (is_valid off); cbn [negb] in Hx; try destruct Hx.
  - apply leaf_entries_in in Hx as (pre & p & post & _ & _ & Hv & Hi & ->). cbn [fst snd].
    split; [exact Hv|]. split; [exact Hi|].
    rewrite handle_offset_div by assumption.
    replace (4 * p + depth * leaf_count handle_entry_size * 4)
      with ((p + depth * leaf_count handle_entry_size) * 4) by ring.
    apply Z_mod_mult.
  - apply upper_entries_in in Hx as (pre & p & post & _ & _ & _ & Hx). exact (IH _ _ Hx).
Qed.

End HandleLevels.

(** Whatever the number of levels in [TableCode], every pair [handles]
    yields is a valid entry whose object header was accepted, with a handle
    value that is a multiple of 4. *)
Theorem handles_multiple_of_four (is_valid : Z -> bool) (read_address : Z -> Z)
    (address_size handle_entry_size : Z) (item_ok : Z -> bool) (TableCode_v : Z) (x : Z * Z) :
  (4 <= handle_entry_size)%Z -> (handle_entry_size mod 4 = 0)%Z ->
  In x (handles is_valid read_address address_size handle_entry_size item_ok TableCode_v) ->
  is_valid (fst x) = true /\ item_ok (fst x) = true /\ (snd x mod 4 = 0)%Z.
Proof.
  intros H4 Hm Hx. unfold handles in Hx.
  exact (make_handle_array_entries _ _ _ _ _ H4 Hm _ _ _ _ Hx).
Qed.

Lemma handles_multiple_of_four_witness :
  In (131088, 8)%Z (handles ht_valid (fun _ => 131072%Z) 4 8 (fun _ => true) 65537) /\
  (8 mod 4 = 0)%Z.
Proof.
  assert (Hx : In (131088, 8)%Z (handles ht_valid (fun _ => 131072%Z) 4 8 (fun _ => true) 65537))
    by (vm_compute; right; right; left; reflexivity).
  split; [exact Hx|].
  exact (proj2 (proj2 (handles_multiple_of_four ht_valid (fun _ => 131072%Z) 4 8
                          (fun _ => true) 65537 _ ltac:(lia) eq_refl Hx))).
Defined.

(** On a three-level table (level bits 2) the handle value of the entry at
    position [p] of the leaf page reached through top-level entry [i] and
    middle-level entry [j] is [4 * p + (i + j) * page_capacity * 4]: the
    depth counter of the middle level starts from the top-level index, so it
    only sees [i + j], and leaves under different (i, j) with the same sum
    get the same handle values. *)
Theorem handles_three_level (is_valid : Z -> bool) (read_address : Z -> Z)
    (address_size handle_entry_size : Z) (item_ok : Z -> bool) (TableCode_v e hv : Z) :
  (4 <= handle_entry_size)%Z -> (handle_entry_size mod 4 = 0)%Z ->
  Z.land TableCode_v 7 = 2%Z ->
  In (e, hv) (handles is_valid read_address address_size handle_entry_size item_ok TableCode_v) ->
  let base := Z.land TableCode_v (Z.lnot 7) in
  exists i j p,
    (0 <= i < upper_count address_size)%Z /\ (0 <= j < upper_count address_size)%Z /\
    (0 <= p < leaf_count handle_entry_size)%Z /\
    let page := read_address (read_address (base + i * address_size)%Z + j * address_size)%Z in
    e = (page + p * handle_entry_size)%Z /\
    hv = (4 * p + (i + j) * leaf_count handle_entry_size * 4)%Z.
Proof.
  intros H4 Hm Hl Hx base. unfold handles, LEVEL_MASK in Hx. rewrite Hl in Hx. fold base in Hx.
  change (Z.to_nat 2) with 2%nat in Hx. cbn [make_handle_array] in Hx.
  destruct (is_valid base); cbn [negb] in Hx; [|destruct Hx].
  apply upper_entries_in in Hx as (pre & i & post & E & _ & _ & Hx).
  apply positions_split in E as [-> Hi]. rewrite length_positions in Hx by lia.
  rewrite Z.add_0_l in Hx. cbn [make_handle_array] in Hx.
  match type of Hx with context [negb (is_valid ?md)] =>
    destruct (is_valid md); cbn [negb] in Hx; [|destruct Hx] end.
  apply upper_entries_in in Hx as (pre' & j & post' & E' & _ & _ & Hx).
  apply positions_split in E' as [-> Hj]. rewrite length_positions in Hx by lia.
  cbn [make_handle_array] in Hx.
  match type of Hx with context [negb (is_valid ?pg)] =>
    destruct (is_valid pg); cbn [negb] in Hx; [|destruct Hx] end.
  apply leaf_entries_in in Hx as (pre'' & p & post'' & E'' & _ & _ & _ & Hx).
  apply positions_split in E'' as [-> Hp]. inversion Hx; subst e hv.
  exists i, j, p. split; [exact Hi|]. split; [exact Hj|]. split; [exact Hp|].
  split; [reflexivity|]. rewrite handle_offset_div by assumption. reflexivity.
Qed.

(** A three-level table at 0x10000 (TableCode 0x10002, 4-byte pointers,
    8-byte entries): top-level entries 0 and 1 lead to middle pages 0x20000
    and 0x30000; entries 0 and 1 of the first and entry 0 of the second lead
    to leaf pages 0x40000, 0x50000 and 0x60000, each with one valid entry. *)
Definition ht3_read (a : Z) : Z :=
  if Z.eqb a 65536 then 131072 else if Z.eqb a 65540 then 196608
  else if Z.eqb a 131072 then 262144 else if Z.eqb a 131076 then 327680
  else if Z.eqb a 196608 then 393216 else 0.

Definition ht3_valid (a : Z) : bool :=
  existsb (Z.eqb a) [65536; 65540; 131072; 131076; 196608; 262144; 327680; 393216]%Z.

Lemma handles_three_level_witness :
  handles ht3_valid ht3_read 4 8 (fun _ => true) 65538
  = [(262144, 0); (327680, 2048); (393216, 2048)]%Z /\
  exists i j p, (0 <= i < upper_count 4)%Z /\ (0 <= j < upper_count 4)%Z /\
    (0 <= p < leaf_count 8)%Z /\
    393216%Z = (ht3_read (ht3_read (65536 + i * 4) + j * 4) + p * 8)%Z /\
    2048%Z = (4 * p + (i + j) * leaf_count 8 * 4)%Z.
Proof.
  assert (H : handles ht3_valid ht3_read 4 8 (fun _ => true) 65538
              = [(262144, 0); (327680, 2048); (393216, 2048)]%Z) by (vm_compute; reflexivity).
  split; [exact H|].
  apply (handles_three_level ht3_valid ht3_read 4 8 (fun _ => true) 65538 393216 2048
           ltac:(lia) eq_refl eq_refl).
  rewrite H. right. right. left. reflexivity.
Defined.

(** *** VAD regions *)

(** [get_data] reads the whole region, [(EndingVpn - StartingVpn + 1)]
    pages from the first byte of page [StartingVpn], exactly when the start
    page lies below 4 GiB ([StartingVpn < 2^20]) and [EndingVpn] is below
    [0xFFFFFFFF]; otherwise it returns the empty string.  [get_start] and
    [get_end + 1] are always page aligned. *)
Theorem get_data_region (zread : Z -> Z -> string) (StartingVpn EndingVpn : Z) :
  ((StartingVpn < 1048576)%Z -> (EndingVpn < 4294967295)%Z ->
   get_data zread StartingVpn EndingVpn
   = zread (StartingVpn * 4096)%Z ((EndingVpn - StartingVpn + 1) * 4096)%Z) /\
  ((1048576 <= StartingVpn)%Z \/ (4294967295 <= EndingVpn)%Z ->
   get_data zread StartingVpn EndingVpn = EmptyString) /\
  (get_start StartingVpn mod 4096 = 0)%Z /\ ((get_end EndingVpn + 1) mod 4096 = 0)%Z.
Proof.
  unfold get_data, get_start, get_end. rewrite !Z.shiftl_mul_pow2 by lia.
  change (2 ^ 12)%Z with 4096%Z.
  split; [|split; [|split]].
  - intros HS HE.
    replace ((StartingVpn * 4096 >? 4294967295) || ((EndingVpn + 1) * 4096 - 1 >? 4294967295 * 4096))%Z
      with false.
    + f_equal. lia.
    + symmetry. apply orb_false_iff. rewrite !Z.gtb_ltb, !Z.ltb_ge. lia.
  - intros H.
    replace ((StartingVpn * 4096 >? 4294967295) || ((EndingVpn + 1) * 4096 - 1 >? 4294967295 * 4096))%Z
      with true; [reflexivity|].
    symmetry. apply orb_true_iff. rewrite !Z.gtb_ltb, !Z.ltb_lt. lia.
  - apply Z_mod_mult.
  - replace ((EndingVpn + 1) * 4096 - 1 + 1)%Z with ((EndingVpn + 1) * 4096)%Z by ring.
    apply Z_mod_mult.
Qed.

Lemma get_data_region_witness :
  get_data (fun a n => if Z.eqb n 65536 then "region"%string else EmptyString) 16 31
  = "region"%string.
Proof.
  rewrite (proj1 (get_data_region (fun a n => if Z.eqb n 65536 then "region"%string else EmptyString)
                    16 31) ltac:(lia) ltac:(lia)).
  reflexivity.
Defined.

(** *** PE sections *)

Lemma sanity_check_none (image_size va vs raw : Z) :
  sanity_check_section image_size va vs raw = None <->
  (va <= image_size /\ vs <= image_size /\ raw <= image_size)%Z.
Proof.
  unfold sanity_check_section. rewrite !Z.gtb_ltb.
  destruct (Z.ltb_spec image_size va); [split; [discriminate|lia]|].
  destruct (Z.ltb_spec image_size vs); [split; [discriminate|lia]|].
  destruct (Z.ltb_spec image_size raw); [split; [discriminate|lia]|].
  split; [intros _; lia|reflexivity].
Qed.

Section SectionsProofs.
Variable VirtualAddress VirtualSize SizeOfRawData : Z -> Z.
Variable SizeOfImage : Z.

Definition section_sane (a : Z) : Prop :=
  (VirtualAddress a <= SizeOfImage /\ VirtualSize a <= SizeOfImage /\
   SizeOfRawData a <= SizeOfImage)%Z.

Lemma sections_from_unsafe start size is :
  sections_from VirtualAddress VirtualSize SizeOfRawData SizeOfImage true start size is
  = (map (fun i => start + i * size)%Z is, None).
Proof.
  induction is as [|i is IH]; [reflexivity|]. cbn [sections_from map]. rewrite IH. reflexivity.
Qed.

Lemma sections_from_safe start size is ys err :
  sections_from VirtualAddress VirtualSize SizeOfRawData SizeOfImage false start size is
  = (ys, err) ->
  let all := map (fun i => start + i * size)%Z is in
  exists k, ys = firstn k all /\ Forall section_sane ys /\
    ((err = None /\ k = length all) \/
     (err <> None /\ (k < length all)%nat /\ ~ section_sane (nth k all 0%Z))).
Proof.
  revert ys err. induction is as [|i is IH]; intros ys err H all; cbn [sections_from] in H.
  - inversion H; subst. exists 0%nat. split; [reflexivity|]. split; [constructor|]. left. auto.
  - destruct (sanity_check_section SizeOfImage (VirtualAddress (start + i * size)%Z)
                (VirtualSize (start + i * size)%Z) (SizeOfRawData (start + i * size)%Z))
      as [msg|] eqn:C.
    + inversion H; subst. exists 0%nat. split; [reflexivity|]. split; [constructor|].
      right. split; [discriminate|]. split; [cbn; lia|].
      cbn. intros Hs. apply sanity_check_none in Hs. congruence.
    + destruct (sections_from VirtualAddress VirtualSize SizeOfRawData SizeOfImage false
                  start size is) as [ys' err'] eqn:R.
      inversion H; subst ys err.
      apply sanity_check_none in C.
      destruct (IH ys' err' eq_refl) as (k & Hk & Hf & Hr).
      exists (S k). split; [cbn; rewrite Hk; reflexivity|]. split; [constructor; assumption|].
      cbn [length map nth]. destruct Hr as [[-> ->]|(Ne & Lt & Ns)].
      * left. split; reflexivity.
      * right. split; [exact Ne|]. split; [unfold all; cbn [map length]; lia|exact Ns].
Qed.

End SectionsProofs.

(** With [unsafe] set, [get_sections] yields all [NumberOfSections]
    headers, one [sect_size] apart from the end of the optional header.
    Without it, the yielded headers are a prefix of those, each within
    [SizeOfImage] in [VirtualAddress], [VirtualSize] and [SizeOfRawData];
    either all are yielded, or a [ValueError] is raised at the first header
    that violates a bound. *)
Theorem get_sections_checked (VirtualAddress VirtualSize SizeOfRawData : Z -> Z)
    (SizeOfImage SizeOfOptionalHeader OptionalHeader_offset NumberOfSections sect_size : Z) :
  let all := map (fun i => SizeOfOptionalHeader + OptionalHeader_offset + i * sect_size)%Z
                 (positions NumberOfSections) in
  let sane a := (VirtualAddress a <= SizeOfImage /\ VirtualSize a <= SizeOfImage /\
                 SizeOfRawData a <= SizeOfImage)%Z in
  get_sections VirtualAddress VirtualSize SizeOfRawData SizeOfImage true
    SizeOfOptionalHeader OptionalHeader_offset NumberOfSections sect_size = (all, None) /\
  forall ys err,
  get_sections VirtualAddress VirtualSize SizeOfRawData SizeOfImage false
    SizeOfOptionalHeader OptionalHeader_offset NumberOfSections sect_size = (ys, err) ->
  exists k, ys = firstn k all /\ Forall sane ys /\
    ((err = None /\ k = length all) \/
     (err <> None /\ (k < length all)%nat /\ ~ sane (nth k all 0%Z))).
Proof.
  intros all sane. unfold get_sections. split.
  - apply sections_from_unsafe.
  - intros ys err H. exact (sections_from_safe _ _ _ _ _ _ _ _ _ H).
Qed.

(** Three section headers 40 bytes apart after a 224-byte optional header
    at 0x1018, in an image of 0x5000 bytes; the second one claims a
    [VirtualSize] of 0x9000. *)
Definition sec_vsize (a : Z) : Z := if Z.eqb a 4384 then 36864 else 4096.

Lemma get_sections_checked_witness :
  get_sections (fun _ => 4096%Z) sec_vsize (fun _ => 512%Z) 20480 false 224 4120 3 40
  = ([4344%Z], Some "VirtualSize 00009000 is larger than image size."%string) /\
  exists k, [4344%Z] = firstn k [4344; 4384; 4424]%Z /\
    (k < 3)%nat /\ ~ (4096 <= 20480 /\ sec_vsize (nth k [4344; 4384; 4424] 0) <= 20480 /\
                       512 <= 20480)%Z.
Proof.
  assert (H : get_sections (fun _ => 4096%Z) sec_vsize (fun _ => 512%Z) 20480 false 224 4120 3 40
              = ([4344%Z], Some "VirtualSize 00009000 is larger than image size."%string))
    by (vm_compute; reflexivity).
  split; [exact H|].
  destruct (proj2 (get_sections_checked (fun _ => 4096%Z) sec_vsize (fun _ => 512%Z)
                     20480 224 4120 3 40) _ _ H) as (k & Hk & _ & [[E _]|(_ & Lt & Ns)]);
    [discriminate|].
  exists k. split; [exact Hk|]. split; [exact Lt|exact Ns].
Defined.

(** *** Registry key names *)

(** The key control blocks from [k] upwards: [names] are the names of the
    blocks that have a parent, and the walk ends at a block without parent
    or without name. *)
Fixpoint kcb_chain (ParentKcb : Z -> Z) (ParentKcb_ok : Z -> bool) (Name : Z -> option string)
    (names : list string) (k : Z) : Prop :=
  match names with
  | [] => ParentKcb_ok k = false \/ Name k = None
  | n :: ns => ParentKcb_ok k = true /\ Name k = Some n /\
               kcb_chain ParentKcb ParentKcb_ok Name ns (ParentKcb k)
  end.

Lemma kcb_walk_chain ParentKcb ParentKcb_ok Name names k out fuel :
  kcb_chain ParentKcb ParentKcb_ok Name names k -> (length names < fuel)%nat ->
  kcb_walk ParentKcb ParentKcb_ok Name fuel k out = Some (out ++ names).
Proof.
  revert k out fuel. induction names as [|n ns IH]; intros k out [|f] Hc Hf;
    cbn [length] in Hf; try lia; cbn [kcb_walk].
  - rewrite app_nil_r. destruct Hc as [Hc|Hc].
    + rewrite Hc. reflexivity.
    + destruct (ParentKcb_ok k); cbn [negb]; [rewrite Hc|]; reflexivity.
  - destruct Hc as (Ho & Hn & Hc). rewrite Ho, Hn. cbn [negb].
    rewrite (IH _ _ f Hc) by lia. rewrite <- app_assoc. reflexivity.
Qed.

(** [full_key_name] joins, root first, the names of the blocks from the
    key's own control block up to (not including) the first block that has
    no parent or no name, with backslashes. *)
Theorem full_key_name_chain (ParentKcb : Z -> Z) (ParentKcb_ok : Z -> bool)
    (Name : Z -> option string) (names : list string) (k : Z) (fuel : nat) :
  kcb_chain ParentKcb ParentKcb_ok Name names k -> (length names < fuel)%nat ->
  full_key_name ParentKcb ParentKcb_ok Name fuel k = Some (String.concat "\" (rev names)).
Proof.
  intros Hc Hf. unfold full_key_name. rewrite (kcb_walk_chain _ _ _ _ _ [] _ Hc Hf). reflexivity.
Qed.

(** Five key control blocks 0x100 .. 0x104, each the parent of the one
    before; 0x105, the hive root, has no parent. *)
Definition kcb_name (k : Z) : option string :=
  if Z.eqb k 256 then Some "Run"%string else if Z.eqb k 257 then Some "CurrentVersion"%string
  else if Z.eqb k 258 then Some "Windows"%string else if Z.eqb k 259 then Some "Microsoft"%string
  else Some "SOFTWARE"%string.

Lemma full_key_name_chain_witness :
  full_key_name (fun k => (k + 1)%Z) (fun k => (k <? 261)%Z) kcb_name 10 256
  = Some "SOFTWARE\Microsoft\Windows\CurrentVersion\Run"%string.
Proof.
  apply (full_key_name_chain (fun k => (k + 1)%Z) (fun k => (k <? 261)%Z) kcb_name
           ["Run"; "CurrentVersion"; "Windows"; "Microsoft"; "SOFTWARE"]%string 256 10).
  - cbn. repeat split; auto.
  - cbn. lia.
Defined.

(** The loop has no guard against a cycle of [ParentKcb] pointers: on a set
    of named blocks that all have a parent in the set, [full_key_name] never
    returns. *)
Theorem full_key_name_cycle (ParentKcb : Z -> Z) (ParentKcb_ok : Z -> bool)
    (Name : Z -> option string) (P : Z -> Prop) :
  (forall k, P k -> ParentKcb_ok k = true /\ Name k <> None /\ P (ParentKcb k)) ->
  forall fuel k, P k -> full_key_name ParentKcb ParentKcb_ok Name fuel k = None.
Proof.
  intros HP fuel k Hk. unfold full_key_name.
  enough (E : forall out, kcb_walk ParentKcb ParentKcb_ok Name fuel k out = None)
    by (rewrite E; reflexivity).
  revert k Hk. induction fuel as [|f IH]; intros k Hk out; [reflexivity|].
  cbn [kcb_walk]. destruct (HP k Hk) as (Ho & Hn & Hp). rewrite Ho. cbn [negb].
  destruct (Name k) as [n|]; [apply IH; exact Hp|contradiction].
Qed.

Lemma full_key_name_cycle_witness :
  full_key_name (fun k => if Z.eqb k 256 then 257%Z else 256%Z) (fun _ => true)
    (fun _ => Some "Loop"%string) 1000 256 = None.
Proof.
  apply (full_key_name_cycle (fun k => if Z.eqb k 256 then 257%Z else 256%Z) (fun _ => true)
           (fun _ => Some "Loop"%string) (fun k => k = 256%Z \/ k = 257%Z)).
  - intros k [->| ->]; cbn; repeat split; try discriminate; auto.
  - left. reflexivity.
Defined.

(** *** Truth value of time stamps *)

Lemma unix_time_nonzero (wt : Z) :
  negb (Z.eqb (windows_to_unix_time wt) 0) = true <-> (116444736010000000 <= wt)%Z.
Proof.
  unfold windows_to_unix_time.
  pose proof (Z.div_mod wt 10000000 ltac:(lia)) as Hd.
  pose proof (Z.mod_pos_bound wt 10000000 ltac:(lia)) as Hb.
  destruct (Z.eqb_spec wt 0) as [->|Nz]; [cbn; split; [discriminate|lia]|].
  destruct (Z.ltb_spec (wt / 10000000 - 11644473600) 0) as [L|L]; cbn.
  - split; [discriminate|lia].
  - rewrite negb_true_iff, Z.eqb_neq. lia.
Qed.

(** A [WinTimeStamp] is true exactly when its raw signed value is at least
    [11644473601 * 10^7] (one second after the Unix epoch); a
    [ThreadCreateTimeStamp], whose raw value is shifted right by 3 first,
    exactly when its raw value is at least 8 times that. *)
Theorem timestamp_nonzero (word : Z) :
  (WinTimeStamp_nonzero word = true <->
   (116444736010000000 <= as_windows_timestamp word)%Z) /\
  (ThreadCreateTimeStamp_nonzero word = true <->
   (931557888080000000 <= as_windows_timestamp word)%Z).
Proof.
  unfold WinTimeStamp_nonzero, WinTimeStamp_v, ThreadCreateTimeStamp_nonzero,
    ThreadCreateTimeStamp_v, ThreadCreateTimeStamp_as_windows_timestamp.
  rewrite !unix_time_nonzero. split; [reflexivity|].
  rewrite Z.shiftr_div_pow2 by lia. change (2 ^ 3)%Z with 8%Z.
  pose proof (Z.div_mod (as_windows_timestamp word) 8 ltac:(lia)).
  pose proof (Z.mod_pos_bound (as_windows_timestamp word) 8 ltac:(lia)).
  lia.
Qed.

(** *** File access strings *)

Lemma access_char_cons (field : Z) (c : Ascii.ascii) (rest : string) :
  (access_char field (String c EmptyString) ++ rest)%string
  = String (if (0 <? field)%Z then c else Ascii.ascii_of_nat 45) rest.
Proof. unfold access_char. destruct (0 <? field)%Z; reflexivity. Qed.

Lemma access_char_last (field : Z) (c : Ascii.ascii) :
  access_char field (String c EmptyString)
  = String (if (0 <? field)%Z then c else Ascii.ascii_of_nat 45) EmptyString.
Proof. unfold access_char. destruct (0 <? field)%Z; reflexivity. Qed.

Lemma string_cons_inj (x y : Ascii.ascii) (s t : string) :
  String x s = String y t <-> x = y /\ s = t.
Proof. split; [intros H; inversion H; auto|intros [-> ->]; reflexivity]. Qed.

Lemma flag_char_inj (c : Ascii.ascii) (a a' : Z) :
  c <> Ascii.ascii_of_nat 45 ->
  (if (0 <? a)%Z then c else Ascii.ascii_of_nat 45) = (if (0 <? a')%Z then c else Ascii.ascii_of_nat 45)
  <-> ((0 < a)%Z <-> (0 < a')%Z).
Proof.
  intros Hc.
  destruct (Z.ltb_spec 0 a); destruct (Z.ltb_spec 0 a');
    (split; [intros E|intros E]); try (split; intros; lia); try reflexivity;
    try (exfalso; apply Hc; congruence); try (exfalso; lia);
    try (destruct E as [E1 E2]; exfalso; lia).
Qed.

(** [access_string] is always six characters long, and it determines, and
    is determined by, which of the six access fields are positive: two file
    objects get the same string exactly when the same fields are positive. *)
Theorem access_string_flags (r w d sr sw sd r' w' d' sr' sw' sd' : Z) :
  String.length (access_string r w d sr sw sd) = 6%nat /\
  (access_string r w d sr sw sd = access_string r' w' d' sr' sw' sd' <->
   ((0 < r <-> 0 < r') /\ (0 < w <-> 0 < w') /\ (0 < d <-> 0 < d') /\
    (0 < sr <-> 0 < sr') /\ (0 < sw <-> 0 < sw') /\ (0 < sd <-> 0 < sd'))%Z).
Proof.
  unfold access_string.
  rewrite !access_char_cons, !access_char_last.
  split; [reflexivity|].
  rewrite !string_cons_inj, !flag_char_inj by discriminate.
  tauto.
Qed.

End WindowsProofs.
